(** * Ubuntu image fetcher: a shallow embedding of [ubuntu_image_fetcher.py]

    The development follows the source file top to bottom:

    - [Py]: the Python built-ins the fetcher calls on text and numbers
      ([str.lower], [str.strip], [str.isalnum], [int], [/] on integers,
      [format(x, '.1f')]), [os.path.basename] and the [stem] and [suffix]
      of [pathlib];
    - [Runtime] and [World]: the library functions the repository does not
      define, and the answers of the network, the clock and the disk;
    - the class [UbuntuImageFetcher], method by method, as state-passing
      functions over the download directory, the in-memory hash set and
      the console, and the menu of [main];
    - the properties of header validation, filename resolution, conflict
      handling, duplicate detection, hash recording, the batch runner,
      restarts and the menu.

    Text is modelled as [string] whose characters are code points below 256
    (Latin-1): this is what the HTTP client hands over for header values;
    URLs and filenames are taken in the same range.  Byte contents of files
    are [string] as well. *)

From Stdlib Require Import ZArith NArith Ascii String List Bool Lia.
From stdpp Require Import base option numbers list strings pretty gmap.

Local Open Scope Z_scope.

(* ===================================================================== *)
(** ** Exceptions and outcomes *)
(* ===================================================================== *)

(** The exception classes that can reach the handlers of [fetch_image].
    The first four are the [requests.exceptions] classes the handlers name
    ([ReqOther] stands for any other [RequestException]). *)
Inductive exn : Type :=
  | ReqTimeout
  | ReqConnectionError
  | ReqHTTPError (status : Z)
  | ReqOther
  | OSError
  | ValueError
  | OverflowError
  | OtherError.

(** A Python call either returns a value or raises. *)
Inductive outcome (A : Type) : Type :=
  | Return (a : A)
  | Raise (e : exn).
Arguments Return {A} a.
Arguments Raise {A} e.

Definition bind {A B} (m : outcome A) (k : A → outcome B) : outcome B :=
  match m with
  | Return a => k a
  | Raise e => Raise e
  end.

Notation "'let!' x ':=' m 'in' k" := (bind m (λ x, k))
  (at level 10, x name, m at level 100, k at level 200).

(* ===================================================================== *)
(** ** Python built-ins *)
(* ===================================================================== *)

Module Py.

Definition ord (c : ascii) : N := N_of_ascii c.

Definition between (lo hi : N) (c : ascii) : bool :=
  ((lo <=? ord c) && (ord c <=? hi))%N.

Definition code (n : N) (c : ascii) : bool := (ord c =? n)%N.

(** [c.isalnum()] on the Latin-1 range: digits, letters, the ordinal
    indicators, micro sign, superscript digits and vulgar fractions. *)
Definition isalnum (c : ascii) : bool :=
  between 48 57 c || between 65 90 c || between 97 122 c
  || code 170 c || code 178 c || code 179 c || code 181 c || code 185 c || code 186 c
  || between 188 190 c || between 192 214 c || between 216 246 c
  || between 248 255 c.

(** [c.isspace()], the characters removed by [str.strip()]. *)
Definition isspace (c : ascii) : bool :=
  between 9 13 c || between 28 32 c || code 133 c || code 160 c.

(** The white space [int()] accepts around a numeral: the ASCII file
    separators 28..31 are not part of it. *)
Definition int_isspace (c : ascii) : bool :=
  between 9 13 c || code 32 c || code 133 c || code 160 c.

Definition lower_char (c : ascii) : ascii :=
  if between 65 90 c || between 192 214 c || between 216 222 c
  then ascii_of_N (ord c + 32)
  else c.

(** [s.lower()] *)
Fixpoint lower (s : string) : string :=
  match s with
  | EmptyString => EmptyString
  | String c r => String (lower_char c) (lower r)
  end.

(** [s.startswith(p)] *)
Definition startswith (s p : string) : bool := String.prefix p s.

(** [c in s] for a character [c] *)
Fixpoint contains (c : ascii) (s : string) : bool :=
  match s with
  | EmptyString => false
  | String d r => Ascii.eqb c d || contains c r
  end.

(** ["".join(c for c in s if keep c)] *)
Fixpoint join_if (keep : ascii → bool) (s : string) : string :=
  match s with
  | EmptyString => EmptyString
  | String c r => if keep c then String c (join_if keep r) else join_if keep r
  end.

Fixpoint lstrip_by (sp : ascii → bool) (s : string) : string :=
  match s with
  | EmptyString => EmptyString
  | String c r => if sp c then lstrip_by sp r else s
  end.

Fixpoint rstrip_by (sp : ascii → bool) (s : string) : string :=
  match s with
  | EmptyString => EmptyString
  | String c r =>
      match rstrip_by sp r with
      | EmptyString => if sp c then EmptyString else String c EmptyString
      | r' => String c r'
      end
  end.

Definition strip_by (sp : ascii → bool) (s : string) : string :=
  rstrip_by sp (lstrip_by sp s).

(** [s.strip()] *)
Definition strip : string → string := strip_by isspace.

(** *** [int(s)] *)

Definition digit_val (c : ascii) : option Z :=
  if between 48 57 c then Some (Z.of_N (ord c) - 48) else None.

(** The digits of a numeral, where a single underscore may separate two
    digits.  [prev] tells whether the previous character was a digit;
    the result is the value and the number of digit characters. *)
Fixpoint int_body (s : string) (prev : bool) (acc : Z) (cnt : N)
  : option (Z * N) :=
  match s with
  | EmptyString => if prev then Some (acc, cnt) else None
  | String c r =>
      match digit_val c with
      | Some d => int_body r true (10 * acc + d) (cnt + 1)
      | None =>
          if Ascii.eqb c "_" && prev then int_body r false acc cnt else None
      end
  end.

(** [int(s)] in base ten; [None] is [ValueError].  [max_digits] is
    [sys.get_int_max_str_digits()]: when it is not zero, a numeral of
    more than 640 digits that exceeds it is refused. *)
Definition int (max_digits : N) (s : string) : option Z :=
  let t := strip_by int_isspace s in
  let '(neg, body) :=
    match t with
    | String "-" r => (true, r)
    | String "+" r => (false, r)
    | _ => (false, t)
    end in
  match int_body body false 0 0 with
  | Some (v, cnt) =>
      if ((640 <? cnt) && (0 <? max_digits) && (max_digits <? cnt))%N
      then None
      else Some (if neg then - v else v)
  | None => None
  end.

(** *** Floats that are a multiple of 2^-20

    [n / (1024 * 1024)] divides an integer by 2^20 and rounds the
    quotient to a double (53 significant bits, ties to even).  The
    result is represented by the integer [m] with value [m / 2^20]. *)

Definition round53 (n : Z) : Z :=
  let a := Z.abs n in
  let bits := Z.log2 a + 1 in
  if bits <=? 53 then n
  else
    let sh := bits - 53 in
    let q := Z.shiftr a sh in
    let r := Z.land a (Z.ones sh) in
    let half := Z.shiftl 1 (sh - 1) in
    let q' := if (half <? r) || ((r =? half) && Z.odd q) then q + 1 else q in
    Z.sgn n * Z.shiftl q' sh.

Definition MIB : Z := 1024 * 1024.

(** [n / (1024 * 1024)]: [OverflowError] when the rounded quotient
    reaches 2^1024. *)
Definition truediv_mib (n : Z) : outcome Z :=
  let m := round53 n in
  if 2 ^ 1044 <=? Z.abs m then Raise OverflowError else Return m.

(** [x > 50] for the float [x = m / 2^20] *)
Definition gt_50 (m : Z) : bool := 50 * MIB <? m.

(** [format(x, '.1f')] for a float [x = m / 2^20], [0 <= m]: the
    exact value rounded to one decimal, ties to even. *)
Definition format_1f (m : Z) : string :=
  let t := 10 * m in
  let d := Z.shiftr t 20 in
  let r := Z.land t (Z.ones 20) in
  let half := Z.shiftl 1 19 in
  let d' := if (half <? r) || ((r =? half) && Z.odd d) then d + 1 else d in
  pretty (d' / 10) +:+ "." +:+ pretty (d' mod 10).

(** *** Paths *)

(** [s.rfind(c)] as the text after the last [c], if there is one *)
Fixpoint after_last (c : ascii) (s : string) : option string :=
  match s with
  | EmptyString => None
  | String d r =>
      match after_last c r with
      | Some t => Some t
      | None => if Ascii.eqb c d then Some r else None
      end
  end.

(** [os.path.basename(p)] (POSIX): everything after the last slash. *)
Definition basename (p : string) : string :=
  match after_last "/" p with
  | Some t => t
  | None => p
  end.

(** [PurePath.stem] and [PurePath.suffix] of a final component [name]:
    with [i = name.rfind('.')], the name splits at [i] when
    [0 < i < len(name) - 1], and has no suffix otherwise. *)
Definition split_suffix (name : string) : string * string :=
  match after_last "." name with
  | Some ext =>
      let i := (String.length name - S (String.length ext))%nat in
      if (0 <? i)%nat && negb (String.eqb ext "")
      then (substring 0 i name, "." +:+ ext)
      else (name, "")
  | None => (name, "")
  end.

Definition stem (name : string) : string := (split_suffix name).1.
Definition suffix (name : string) : string := (split_suffix name).2.

End Py.


(* ===================================================================== *)
(** ** The libraries and the outside world *)
(* ===================================================================== *)

(** Library functions the fetcher calls and this repository does not
    define: [hashlib.md5(content).hexdigest()], [urlparse(url).path]
    (which raises on a malformed URL), [urllib.parse.unquote],
    [mimetypes.guess_extension] and the interpreter's limit on the number
    of digits [int()] converts. *)
Class Runtime : Type := {
  md5_hexdigest : string → string;
  urlparse_path : string → outcome string;
  unquote : string → string;
  guess_extension : string → option string;
  int_max_str_digits : N;
}.

(** What [requests] hands back: the status code, the two headers the
    fetcher reads ([None] when the header is absent) and the body, whose
    transfer may fail when [response.content] is read. *)
Record Response : Type := {
  status_code : Z;
  content_type_header : option string;
  content_length_header : option string;
  content : outcome string;
}.

(** [response.raise_for_status()] *)
Definition raise_for_status (r : Response) : outcome unit :=
  if (400 <=? status_code r) && (status_code r <? 600)
  then Raise (ReqHTTPError (status_code r))
  else Return tt.

(** How a write that does not succeed ends: the file could not be
    opened, or it was opened (and so made, emptied, or put at its end) and
    the write or the close raised after [written] bytes had reached the
    disk. *)
Inductive write_failure : Type :=
  | OpenFailed
  | WriteFailed (written : nat).

(** The answers of the outside world during one call of [fetch_image]:
    the two requests, the clock ([int(time.time())]), whether opening and
    writing a file both succeed ([open_wb] for the image at a path,
    [open_append] for the hash list), and, when they do not ([OSError]),
    how far the write got. *)
Record World : Type := {
  session_head : string → outcome Response;
  session_get : string → outcome Response;
  time_time : Z;
  open_wb : string → bool;
  open_append : bool;
  wb_failure : string → write_failure;
  append_failure : write_failure;
}.

(** One constructor for each [print] of the class. *)
Inductive line : Type :=
  | Connecting (url : string)
  | Rejected (message : string)
  | Accepted (message : string)
  | Downloading
  | DuplicateDetected
  | Fetched (filename : string)
  | SavedTo (filepath : string)
  | Size (bytes : nat)
  | Strengthened
  | TimedOut
  | ConnectionFailed
  | HttpFailed (status : Z)
  | RequestFailed
  | FileSystemFailed
  | UnexpectedFailed (e : exn)
  | HashNotSaved
  | SessionStarted (count : nat)
  | Processing (i count : nat)
  | Pausing.

Inductive effect : Type :=
  | Print (l : line)
  | Sleep (seconds : Z).

(* ===================================================================== *)
(** ** class UbuntuImageFetcher *)
(* ===================================================================== *)

(** The object and what it owns on disk.  [files] are the entries of the
    download directory (name to bytes), the hash list among them; [trace]
    is what has been printed and slept so far, oldest first.  A path
    inside the directory is written as the entry name, the empty name
    being the directory itself. *)
Record fetcher : Type := {
  download_dir : string;
  files : gmap string string;
  downloaded_hashes : gset string;
  trace : list effect;
}.

Definition NL : string := String "010" EmptyString.

Definition HASH_FILE : string := ".image_hashes.txt".

Definition say (l : line) (st : fetcher) : fetcher :=
  {| download_dir := download_dir st; files := files st;
     downloaded_hashes := downloaded_hashes st;
     trace := trace st ++ [Print l] |}.

Definition sleep (seconds : Z) (st : fetcher) : fetcher :=
  {| download_dir := download_dir st; files := files st;
     downloaded_hashes := downloaded_hashes st;
     trace := trace st ++ [Sleep seconds] |}.

(** [open(path, 'wb')] then [f.write(content)] *)
Definition write_file (name data : string) (st : fetcher) : fetcher :=
  {| download_dir := download_dir st; files := <[name := data]> (files st);
     downloaded_hashes := downloaded_hashes st; trace := trace st |}.

(** [open(hash_file, 'a')], [f.write(f"{file_hash}\n")] and
    [self.downloaded_hashes.add(file_hash)] *)
Definition append_hash (file_hash : string) (st : fetcher) : fetcher :=
  {| download_dir := download_dir st;
     files := <[HASH_FILE := default "" (files st !! HASH_FILE) +:+ file_hash +:+ NL]>
                (files st);
     downloaded_hashes := {[file_hash]} ∪ downloaded_hashes st;
     trace := trace st |}.

(** The list file after a write in append mode put [text] at its end:
    the file is made when it was not there. *)
Definition append_text (text : string) (st : fetcher) : fetcher :=
  {| download_dir := download_dir st;
     files := <[HASH_FILE := default "" (files st !! HASH_FILE) +:+ text]> (files st);
     downloaded_hashes := downloaded_hashes st;
     trace := trace st |}.

(** What a failed write of [data] leaves of it. *)
Definition written_part (written : nat) (data : string) : string :=
  substring 0 written data.

(** When the write fails the hash is not added to the set; the list file
    is as the failure left it. *)
Definition _save_hash (w : World) (st : fetcher) (file_hash : string) : fetcher :=
  if open_append w then append_hash file_hash st
  else
    say HashNotSaved
      match append_failure w with
      | OpenFailed => st
      | WriteFailed written =>
          append_text (written_part written (file_hash +:+ NL)) st
      end.

Definition _get_file_hash `{Runtime} (content : string) : string :=
  md5_hexdigest content.

Definition _validate_image_headers `{Runtime} (response : Response)
  : outcome (bool * string) :=
  let content_type := Py.lower (default "" (content_type_header response)) in
  let content_length := content_length_header response in
  if negb (Py.startswith content_type "image/") then
    Return (false, "Content-Type '" +:+ content_type +:+ "' is not an image")
  else
    let validated := Return (true, "Headers validated successfully") in
    match content_length with
    | None => validated
    | Some "" => validated
    | Some text =>
        match Py.int int_max_str_digits text with
        | None => validated
        | Some n =>
            let! size_mb := Py.truediv_mib n in
            if Py.gt_50 size_mb then
              Return (false, "Image too large (" +:+ Py.format_1f size_mb
                               +:+ "MB). Limit: 50MB")
            else validated
        end
    end.

(** [c.isalnum() or c in '.-_'] *)
Definition safe_char (c : ascii) : bool :=
  Py.isalnum c || Py.contains c ".-_".

(** The characters of [str(n)] for an integer [n]. *)
Definition digits_or_dash (c : ascii) : bool :=
  Py.between 48 57 c || Ascii.eqb c "-".

Definition _generate_filename `{Runtime} (w : World) (url content_type : string)
  : outcome string :=
  let! path := urlparse_path url in
  let filename := Py.basename (unquote path) in
  let filename :=
    if String.eqb filename "" || negb (Py.contains "." filename) then
      let extension :=
        match guess_extension content_type with
        | None | Some "" => ".jpg"
        | Some e => e
        end in
      let timestamp := time_time w in
      "ubuntu_image_" +:+ pretty timestamp +:+ extension
    else filename in
  Return (Py.join_if safe_char filename).

(** *** Paths under the download directory *)

(** [self.download_dir / name]: joining [.] (or nothing) gives the
    directory itself.  Names are single components, which is what
    [_generate_filename] returns: it removes every slash. *)
Definition joinpath (name : string) : string :=
  if String.eqb name "." then "" else name.

(** [filepath.name] *)
Definition path_name (st : fetcher) (filepath : string) : string :=
  if String.eqb filepath "" then download_dir st else filepath.

(** [filepath.exists()]: the directory itself and its parent exist. *)
Definition path_exists (st : fetcher) (filepath : string) : bool :=
  String.eqb filepath "" || String.eqb filepath ".."
  || bool_decide (filepath ∈ dom (files st)).

(** The candidate tried at a given value of [counter]. *)
Definition candidate (stem suffix : string) (counter : N) : string :=
  joinpath (stem +:+ "_" +:+ pretty counter +:+ suffix).

(** [while filepath.exists(): ...], run for at most [fuel] rounds. *)
Fixpoint conflict_loop (fuel : nat) (st : fetcher) (stem suffix : string)
  (counter : N) (filepath : string) : option string :=
  if path_exists st filepath then
    match fuel with
    | O => None
    | S fuel' =>
        conflict_loop fuel' st stem suffix (counter + 1)
          (candidate stem suffix counter)
    end
  else Some filepath.

(** The block "Handle filename conflicts" of [fetch_image].  One more
    round than the directory has entries is always enough
    ([handle_filename_conflicts_total] below). *)
Definition handle_filename_conflicts (st : fetcher) (filepath : string)
  : option string :=
  let original_filepath := filepath in
  let stem := Py.stem (path_name st original_filepath) in
  let suffix := Py.suffix (path_name st original_filepath) in
  conflict_loop (S (size (files st))) st stem suffix 1 filepath.

(** *** fetch_image *)

(** The [except] clauses of [fetch_image], in the order they are tried:
    each prints one line. *)
Definition handler (e : exn) : line :=
  match e with
  | ReqTimeout => TimedOut
  | ReqConnectionError => ConnectionFailed
  | ReqHTTPError status => HttpFailed status
  | ReqOther => RequestFailed
  | OSError => FileSystemFailed
  | _ => UnexpectedFailed e
  end.

(** [session.head(url)], [raise_for_status()] and the header check. *)
Definition probe `{Runtime} (w : World) (url : string) : outcome (bool * string) :=
  let! head_response := session_head w url in
  let! _ := raise_for_status head_response in
  _validate_image_headers head_response.

(** [session.get(url)], [raise_for_status()] and [response.content]. *)
Definition download (w : World) (url : string) : outcome (Response * string) :=
  let! response := session_get w url in
  let! _ := raise_for_status response in
  let! body := content response in
  Return (response, body).

(** The body of the [try] statement: the state reached, and either the
    value of the [return] that ended it or the exception that left it.
    The conflict loop always yields a path
    ([handle_filename_conflicts_total]), so its [None] branch is never
    taken. *)
Definition fetch_try `{Runtime} (w : World) (st : fetcher) (url : string)
  : fetcher * outcome bool :=
  match probe w url with
  | Raise e => (st, Raise e)
  | Return (false, message) => (say (Rejected message) st, Return false)
  | Return (true, message) =>
      let st := say Downloading (say (Accepted message) st) in
      match download w url with
      | Raise e => (st, Raise e)
      | Return (response, body) =>
          let file_hash := _get_file_hash body in
          if bool_decide (file_hash ∈ downloaded_hashes st) then
            (say DuplicateDetected st, Return true)
          else
            let content_type :=
              default "image/jpeg" (content_type_header response) in
            match _generate_filename w url content_type with
            | Raise e => (st, Raise e)
            | Return filename =>
                match handle_filename_conflicts st (joinpath filename) with
                | None => (st, Raise OtherError)
                | Some filepath =>
                    if open_wb w filepath then
                      let st := write_file filepath body st in
                      let st := _save_hash w st file_hash in
                      let st := say (Fetched filename) st in
                      let st := say (SavedTo filepath) st in
                      let st := say (Size (String.length body)) st in
                      let st := say Strengthened st in
                      (st, Return true)
                    else
                      match wb_failure w filepath with
                      | OpenFailed => (st, Raise OSError)
                      | WriteFailed written =>
                          (write_file filepath (written_part written body) st,
                           Raise OSError)
                      end
                end
            end
      end
  end.

Definition fetch_image `{Runtime} (w : World) (st : fetcher) (url : string)
  : fetcher * bool :=
  let st := say (Connecting url) st in
  match fetch_try w st url with
  | (st, Return success) => (st, success)
  | (st, Raise e) => (say (handler e) st, false)
  end.

(** *** fetch_multiple_images *)

(** The dictionary [results] has three fixed keys. *)
Record results : Type := {
  successful : nat;
  failed : nat;
  total : nat;
}.

Definition tally (success : bool) (r : results) : results :=
  if success
  then {| successful := S (successful r); failed := failed r; total := total r |}
  else {| successful := successful r; failed := S (failed r); total := total r |}.

(** The pause after the [i]-th of [count] URLs. *)
Definition pause (i count : nat) (st : fetcher) : fetcher :=
  if (i <? count)%nat then sleep 2 (say Pausing st) else st.

(** One round of the [for] loop without the counting: the progress line,
    the fetch of the trimmed URL, the pause. *)
Definition batch_round `{Runtime} (w : World) (count i : nat) (st : fetcher)
  (url : string) : fetcher * bool :=
  let '(st, success) := fetch_image w (say (Processing i count) st) (Py.strip url) in
  (pause i count st, success).

(** [for i, url in enumerate(urls, i): ...]; [worlds i] is the outside
    world while the [i]-th URL is fetched. *)
Fixpoint batch_loop `{Runtime} (worlds : nat → World) (count i : nat)
  (urls : list string) (st : fetcher) (res : results) : fetcher * results :=
  match urls with
  | [] => (st, res)
  | url :: rest =>
      let '(st, success) := batch_round (worlds i) count i st url in
      batch_loop worlds count (S i) rest st (tally success res)
  end.

Definition fetch_multiple_images `{Runtime} (worlds : nat → World)
  (st : fetcher) (urls : list string) : fetcher * results :=
  let res := {| successful := 0; failed := 0; total := length urls |} in
  batch_loop worlds (length urls) 1 urls (say (SessionStarted (length urls)) st) res.

(** The outcomes of the fetches of a batch, in order: what [fetch_image]
    returned for each trimmed URL in the state the loop had reached. *)
Fixpoint batch_outcomes `{Runtime} (worlds : nat → World) (count i : nat)
  (urls : list string) (st : fetcher) : list bool :=
  match urls with
  | [] => []
  | url :: rest =>
      let st1 := say (Processing i count) st in
      let r := fetch_image (worlds i) st1 (Py.strip url) in
      r.2 :: batch_outcomes worlds count (S i) rest (pause i count r.1)
  end.

(* ===================================================================== *)
(** ** A small runtime and world to run the model on *)
(* ===================================================================== *)

Module Demo.

(** The text from the first slash on. *)
Fixpoint from_slash (s : string) : string :=
  match s with
  | EmptyString => EmptyString
  | String c r => if Ascii.eqb c "/" then s else from_slash r
  end.

(** The path of [scheme://host/path]: enough for the examples. *)
Definition path_of (url : string) : string :=
  match from_slash url with
  | String _ (String _ r) => from_slash r
  | _ => EmptyString
  end.

Definition extension_of (content_type : string) : option string :=
  if String.eqb content_type "image/png" then Some ".png"
  else if String.eqb content_type "image/gif" then Some ".gif"
  else None.

Definition runtime : Runtime := {|
  md5_hexdigest := λ body, "digest-of-" +:+ body;
  urlparse_path := λ url, Return (path_of url);
  unquote := λ s, s;
  guess_extension := extension_of;
  int_max_str_digits := 4300;
|}.

Definition response (content_type : option string)
  (content_length : option string) : Response :=
  {| status_code := 200; content_type_header := content_type;
     content_length_header := content_length; content := Return "PNG-BYTES" |}.

(** Every URL answers with a small PNG; the disk accepts writes when
    [disk_ok]. *)
Definition world (disk_ok : bool) : World :=
  {| session_head := λ _, Return (response (Some "image/png") (Some "9"));
     session_get := λ _, Return (response (Some "image/png") (Some "9"));
     time_time := 1700000000;
     open_wb := λ _, true;
     open_append := disk_ok;
     wb_failure := λ _, OpenFailed;
     append_failure := OpenFailed |}.

(** The same world on a disk that fills up: the image is cut after
    [written] bytes, and so is the line of the hash list. *)
Definition world_disk_full (written : nat) : World :=
  {| session_head := λ _, Return (response (Some "image/png") (Some "9"));
     session_get := λ _, Return (response (Some "image/png") (Some "9"));
     time_time := 1700000000;
     open_wb := λ _, false;
     open_append := false;
     wb_failure := λ _, WriteFailed written;
     append_failure := WriteFailed written |}.

Definition empty_fetcher : fetcher :=
  {| download_dir := "Fetched_Images"; files := ∅;
     downloaded_hashes := ∅; trace := [] |}.

(** A directory holding the given names. *)
Definition fetcher_with (names : list string) : fetcher :=
  {| download_dir := "Fetched_Images";
     files := list_to_map ((λ n, (n, "x")) <$> names);
     downloaded_hashes := ∅; trace := [] |}.

(** The text [0...0] of [n] zeros. *)
Fixpoint zeros (n : nat) : string :=
  match n with
  | O => EmptyString
  | S n' => String "0" (zeros n')
  end.

End Demo.


(* ===================================================================== *)
(** ** Start-up: [__init__] and [_load_existing_hashes] *)
(* ===================================================================== *)

(** [String c l] in front of the first line. *)
Definition prepend (c : ascii) (lines : list string) : list string :=
  match lines with
  | [] => [String c EmptyString]
  | l :: ls => String c l :: ls
  end.

(** [for line in f] on a file opened in text mode: the lines of the text,
    each with its end of line, where a carriage return, a line feed, and a
    carriage return followed by a line feed all end a line and are read as
    one line feed.  [after_cr] tells that the previous character was a
    carriage return. *)
Fixpoint readlines_from (after_cr : bool) (text : string) : list string :=
  match text with
  | EmptyString => []
  | String c r =>
      if Ascii.eqb c "010" then
        if after_cr then readlines_from false r else NL :: readlines_from false r
      else if Ascii.eqb c "013" then NL :: readlines_from true r
      else prepend c (readlines_from false r)
  end.

Definition readlines : string → list string := readlines_from false.

(** [set(line.strip() for line in f)] *)
Definition hash_lines (text : string) : gset string :=
  list_to_set (Py.strip <$> readlines text).

(** The two lines [_load_existing_hashes] can print. *)
Inductive startup_line : Type :=
  | Loaded (count : nat)
  | HashesNotLoaded (e : exn).

Definition set_downloaded_hashes (hashes : gset string) (st : fetcher) : fetcher :=
  {| download_dir := download_dir st; files := files st;
     downloaded_hashes := hashes; trace := trace st |}.

(** [read_text] is what opening the list file and decoding its bytes
    gives: the text, or the exception of a failed open or decoding.  The
    result is the object and what was printed. *)
Definition _load_existing_hashes (read_text : string → outcome string)
  (st : fetcher) : fetcher * list startup_line :=
  match files st !! HASH_FILE with
  | None => (st, [])
  | Some data =>
      match read_text data with
      | Return text =>
          let hashes := hash_lines text in
          (set_downloaded_hashes hashes st, [Loaded (size hashes)])
      | Raise e => (st, [HashesNotLoaded e])
      end
  end.

(** What is at the path of the download directory before the object is
    made. *)
Inductive dir_state : Type :=
  | Absent
  | NotADirectory
  | Directory (entries : gmap string string).

(** [self.download_dir.mkdir(exist_ok=True)]: an existing directory is
    kept, a missing one is made when the disk allows it ([mkdir_ok]), and
    a file in its place is an error. *)
Definition mkdir (mkdir_ok : bool) (disk : dir_state)
  : outcome (gmap string string) :=
  match disk with
  | Directory entries => Return entries
  | Absent => if mkdir_ok then Return ∅ else Raise OSError
  | NotADirectory => Raise OSError
  end.

(** [UbuntuImageFetcher(download_dir)], where [name] is the final
    component of [download_dir]. *)
Definition __init__ (mkdir_ok : bool) (read_text : string → outcome string)
  (name : string) (disk : dir_state) : outcome (fetcher * list startup_line) :=
  let! entries := mkdir mkdir_ok disk in
  let self := {| download_dir := name; files := entries;
                 downloaded_hashes := ∅; trace := [] |} in
  Return (_load_existing_hashes read_text self).

(* ===================================================================== *)
(** ** The menu: [main] *)
(* ===================================================================== *)

(** The lines [main] prints itself (the prompts of [input] are left
    out).  They are kept apart from the trace of the fetcher. *)
Inductive shell_line : Type :=
  | Banner
  | Menu
  | ProvideUrl
  | EnterUrls
  | SessionSummary (r : results)
  | NoUrls
  | Goodbye
  | InvalidChoice.

(** The state of a session: the fetcher, what the menu printed, and the
    number of fetches made so far (the next fetch meets the world after
    that many). *)
Record shell : Type := {
  fetcher_of : fetcher;
  console : list shell_line;
  fetches : nat;
}.

Definition shell_say (l : shell_line) (sh : shell) : shell :=
  {| fetcher_of := fetcher_of sh; console := console sh ++ [l];
     fetches := fetches sh |}.

(** The state after [count] more fetches left the fetcher as [st]. *)
Definition fetched (count : nat) (st : fetcher) (sh : shell) : shell :=
  {| fetcher_of := st; console := console sh; fetches := fetches sh + count |}.

(** The inner [while True] of choice 2: lines are read and trimmed up to
    the first blank one.  Running out of input is the [EOFError] of
    [input], written [OtherError]. *)
Fixpoint read_urls (inputs : list string) (urls : list string)
  : outcome (list string * list string) :=
  match inputs with
  | [] => Raise OtherError
  | l :: rest =>
      let url := Py.strip l in
      if String.eqb url "" then Return (urls, rest)
      else read_urls rest (urls ++ [url])
  end.

(** The outer [while True], for at most [fuel] rounds ([None] when the
    fuel runs out); [worlds k] is the world met by the [k]-th fetch of the
    session. *)
Fixpoint main_loop `{Runtime} (fuel : nat) (worlds : nat → World)
  (inputs : list string) (sh : shell) : option (shell * outcome unit) :=
  match fuel with
  | O => None
  | S fuel' =>
      let sh := shell_say Menu sh in
      match inputs with
      | [] => Some (sh, Raise OtherError)
      | l :: inputs =>
          let choice := Py.strip l in
          if String.eqb choice "1" then
            match inputs with
            | [] => Some (sh, Raise OtherError)
            | u :: inputs =>
                let url := Py.strip u in
                if negb (String.eqb url "") then
                  let r := fetch_image (worlds (S (fetches sh))) (fetcher_of sh) url in
                  main_loop fuel' worlds inputs (fetched 1 r.1 sh)
                else main_loop fuel' worlds inputs (shell_say ProvideUrl sh)
            end
          else if String.eqb choice "2" then
            let sh := shell_say EnterUrls sh in
            match read_urls inputs [] with
            | Raise e => Some (sh, Raise e)
            | Return ([], inputs) =>
                main_loop fuel' worlds inputs (shell_say NoUrls sh)
            | Return (urls, inputs) =>
                let r := fetch_multiple_images (λ i, worlds (fetches sh + i)%nat)
                           (fetcher_of sh) urls in
                main_loop fuel' worlds inputs
                  (shell_say (SessionSummary r.2) (fetched (length urls) r.1 sh))
            end
          else if String.eqb choice "3" then
            Some (shell_say Goodbye sh, Return tt)
          else main_loop fuel' worlds inputs (shell_say InvalidChoice sh)
      end
  end.

(** How a session ends: the constructor raised, or the menu ran with the
    fetcher it made and ended by a return or an exception. *)
Inductive session : Type :=
  | InitFailed (e : exn)
  | Ended (sh : shell) (printed : list startup_line) (r : outcome unit).

(** [main()]: the banner, the fetcher, the menu.  Every round of the menu
    reads at least one line, so one round more than there are lines is
    enough ([main_terminates] below). *)
Definition main `{Runtime} (mkdir_ok : bool) (read_text : string → outcome string)
  (disk : dir_state) (worlds : nat → World) (inputs : list string)
  : option session :=
  match __init__ mkdir_ok read_text "Fetched_Images" disk with
  | Raise e => Some (InitFailed e)
  | Return (st, printed) =>
      match main_loop (S (length inputs)) worlds inputs
              {| fetcher_of := st; console := [Banner]; fetches := 0 |} with
      | Some (sh, r) => Some (Ended sh printed r)
      | None => None
      end
  end.

(** *** What a fetch keeps *)

(** [st'] keeps [st]: the same directory, every hash still known, every
    file still there with its content, the hash list at most longer at its
    end, and nothing taken back from the trace. *)
Definition keeps (st st' : fetcher) : Prop :=
  download_dir st' = download_dir st
  ∧ downloaded_hashes st ⊆ downloaded_hashes st'
  ∧ (∀ name data, files st !! name = Some data →
       ∃ more, files st' !! name = Some (data +:+ more)
               ∧ (name ≠ HASH_FILE → more = ""))
  ∧ ∃ added, trace st' = trace st ++ added.

(** The number of pauses in a trace. *)
Fixpoint sleeps (t : list effect) : nat :=
  match t with
  | [] => 0
  | Sleep _ :: t' => S (sleeps t')
  | Print _ :: t' => sleeps t'
  end.

(** A text of hexadecimal digits, as [hexdigest] returns. *)
Definition hexdigit (c : ascii) : bool :=
  Py.between 48 57 c || Py.between 97 102 c.

Fixpoint all_chars (p : ascii → bool) (s : string) : bool :=
  match s with
  | EmptyString => true
  | String c r => p c && all_chars p r
  end.

(** A character that [strip] leaves alone. *)
Definition nonspace (c : ascii) : bool := negb (Py.isspace c).

(** A text that is empty or ends with a line feed. *)
Definition complete_lines (text : string) : Prop :=
  text = "" ∨ ∃ t, text = t +:+ NL.

(** The hash set and the hash list agree: the set is what a restart would
    read from the list, and the list has only complete lines. *)
Definition in_step (st : fetcher) : Prop :=
  hash_lines (default "" (files st !! HASH_FILE)) = downloaded_hashes st
  ∧ complete_lines (default "" (files st !! HASH_FILE)).

(** *** The ways a fetch ends *)

(** The state in which the conflict loop and the write run. *)
Definition downloading (url message : string) (st : fetcher) : fetcher :=
  say Downloading (say (Accepted message) (say (Connecting url) st)).

(** The state after the image was written under [filepath]. *)
Definition saved `{Runtime} (w : World) (url message body filename filepath : string)
  (st : fetcher) : fetcher :=
  say Strengthened
    (say (Size (String.length body))
       (say (SavedTo filepath)
          (say (Fetched filename)
             (_save_hash w (write_file filepath body (downloading url message st))
                (_get_file_hash body))))).

(** The conditions under which a fetch succeeds: the probe is accepted,
    the download returns a body, and either its hash is known or a
    filename is resolved and the file can be written. *)
Definition fetch_succeeds `{Runtime} (w : World) (st : fetcher) (url : string) : Prop :=
  ∃ message response body,
    probe w url = Return (true, message)
    ∧ download w url = Return (response, body)
    ∧ (_get_file_hash body ∈ downloaded_hashes st
       ∨ ∃ filename filepath,
           _generate_filename w url
             (default "image/jpeg" (content_type_header response))
           = Return filename
           ∧ handle_filename_conflicts st (joinpath filename) = Some filepath
           ∧ open_wb w filepath = true).

(** A fetch that ends with [False] after printing [lines]: the set and
    the directory name are as they were. *)
Definition failed_with (lines : list line) (st st' : fetcher) : Prop :=
  downloaded_hashes st' = downloaded_hashes st
  ∧ download_dir st' = download_dir st
  ∧ trace st' = trace st ++ (Print <$> lines).

(** The write of the image was cut short: everything went well up to the
    path of the conflict loop, the file there was opened, and the write
    failed with only a part of the content on disk. *)
Definition cut_short `{Runtime} (w : World) (st : fetcher) (url : string)
  (st' : fetcher) : Prop :=
  ∃ message response body filename filepath written,
    probe w url = Return (true, message)
    ∧ download w url = Return (response, body)
    ∧ (_get_file_hash body ∉ downloaded_hashes st)
    ∧ (_generate_filename w url (default "image/jpeg" (content_type_header response))
       = Return filename)
    ∧ handle_filename_conflicts st (joinpath filename) = Some filepath
    ∧ files st !! filepath = None
    ∧ open_wb w filepath = false
    ∧ wb_failure w filepath = WriteFailed written
    ∧ files st' = <[filepath := written_part written body]> (files st).

(** What the batch adds to the trace for the [i]-th of [count] URLs when
    its fetch printed [lines]: the progress line, those lines, and the
    notice and the pause of two seconds unless the URL is the last. *)
Definition round_trace (count i : nat) (lines : list line) : list effect :=
  Print (Processing i count) :: (Print <$> lines)
  ++ (if (i <? count)%nat then [Print Pausing; Sleep 2] else []).


(* ===================================================================== *)
(** ** Properties of the built-ins *)
(* ===================================================================== *)

Section Rounding.

Lemma bits_bound (a : Z) : 0 < a → 2 ^ Z.log2 a <= a < 2 ^ (Z.log2 a + 1).
Proof. intros Ha. pose proof (Z.log2_spec a Ha). rewrite <- Z.add_1_r in *. lia. Qed.

(** Integers of at most 53 bits are floats already. *)
Lemma round53_exact (n : Z) : Z.abs n < 2 ^ 53 → Py.round53 n = n.
Proof.
  intros Hn. unfold Py.round53.
  destruct (Z.leb_spec (Z.log2 (Z.abs n) + 1) 53) as [_|Hbits]; [done|].
  exfalso.
  assert (0 < Z.abs n) as Hpos.
  { destruct (Z.abs n) eqn:E; try lia. simpl in Hbits. lia. }
  pose proof (bits_bound _ Hpos) as [Hlo _].
  assert (2 ^ 53 <= 2 ^ Z.log2 (Z.abs n)) by (apply Z.pow_le_mono_r; lia).
  lia.
Qed.

(** Rounding keeps the mantissa between 2^52 and 2^53. *)
Lemma round53_mantissa (a : Z) :
  2 ^ 53 <= a →
  let sh := Z.log2 a + 1 - 53 in
  0 < sh ∧ 2 ^ 52 <= Z.shiftr a sh < 2 ^ 53.
Proof.
  intros Ha sh.
  assert (0 < a) as Hpos by lia.
  pose proof (bits_bound _ Hpos) as [Hlo Hhi].
  assert (53 <= Z.log2 a) as Hlog.
  { apply Z.log2_le_pow2; lia. }
  assert (0 < sh) as Hsh by (unfold sh; lia).
  split; [done|].
  rewrite Z.shiftr_div_pow2 by lia.
  assert (2 ^ Z.log2 a = 2 ^ 52 * 2 ^ sh) as E1.
  { rewrite <- Z.pow_add_r by lia. f_equal. unfold sh. lia. }
  assert (2 ^ (Z.log2 a + 1) = 2 ^ 53 * 2 ^ sh) as E2.
  { rewrite <- Z.pow_add_r by lia. f_equal. unfold sh. lia. }
  assert (0 < 2 ^ sh) as Hp by (apply Z.pow_pos_nonneg; lia).
  split.
  - apply Z.div_le_lower_bound; lia.
  - apply Z.div_lt_upper_bound; lia.
Qed.

Lemma round53_large (n : Z) : 2 ^ 53 <= n → 2 ^ 52 <= Py.round53 n.
Proof.
  intros Hn. unfold Py.round53.
  rewrite (Z.abs_eq n) by lia.
  destruct (round53_mantissa n Hn) as (Hsh & Hq1 & Hq2).
  destruct (Z.leb_spec (Z.log2 n + 1) 53) as [Hle|_]; [lia|].
  rewrite Z.sgn_pos, Z.mul_1_l by lia.
  set (sh := Z.log2 n + 1 - 53) in *.
  rewrite Z.shiftl_mul_pow2 by lia.
  assert (1 <= 2 ^ sh) by (apply (Z.pow_le_mono_r 2 0 sh); lia).
  destruct (_ || _); nia.
Qed.

Lemma round53_nonpos (n : Z) : n <= 0 → Py.round53 n <= 0.
Proof.
  intros Hn. unfold Py.round53.
  destruct (Z.leb_spec (Z.log2 (Z.abs n) + 1) 53) as [_|Hbits]; [done|].
  assert (n < 0) as Hneg.
  { destruct (Z.eq_dec n 0) as [->|]; [simpl in Hbits|]; lia. }
  rewrite Z.sgn_neg by done.
  set (sh := Z.log2 (Z.abs n) + 1 - 53) in *.
  assert (0 <= Z.shiftr (Z.abs n) sh) by (apply Z.shiftr_nonneg; lia).
  assert (0 <= Z.shiftl (if (Z.shiftl 1 (sh - 1) <? Z.land (Z.abs n) (Z.ones sh))
                            || (Z.land (Z.abs n) (Z.ones sh) =? Z.shiftl 1 (sh - 1))
                               && Z.odd (Z.shiftr (Z.abs n) sh)
                         then Z.shiftr (Z.abs n) sh + 1 else Z.shiftr (Z.abs n) sh) sh).
  { apply Z.shiftl_nonneg. destruct (_ || _); lia. }
  lia.
Qed.

(** Rounding the quotient does not change the comparison with 50. *)
Lemma gt_50_round53 (n : Z) : Py.gt_50 (Py.round53 n) = (50 * Py.MIB <? n).
Proof.
  unfold Py.gt_50, Py.MIB.
  destruct (Z.lt_ge_cases (Z.abs n) (2 ^ 53)) as [Hs|Hb].
  - by rewrite round53_exact.
  - destruct (Z.le_gt_cases 0 n) as [Hpos|Hneg].
    + pose proof (round53_large n ltac:(lia)).
      assert (50 * (1024 * 1024) < 2 ^ 52) by done.
      transitivity true; [|symmetry]; apply Z.ltb_lt; lia.
    + pose proof (round53_nonpos n ltac:(lia)).
      transitivity false; [|symmetry]; apply Z.ltb_ge; lia.
Qed.

(** Below 2^1043 in magnitude the division does not overflow. *)
Lemma truediv_mib_in_range (n : Z) :
  Z.abs n < 2 ^ 1043 → Py.truediv_mib n = Return (Py.round53 n).
Proof.
  intros Hn. unfold Py.truediv_mib.
  destruct (Z.leb_spec (2 ^ 1044) (Z.abs (Py.round53 n))) as [Hov|_]; [|done].
  exfalso.
  destruct (Z.lt_ge_cases (Z.abs n) (2 ^ 53)) as [Hs|Hb].
  { rewrite round53_exact in Hov by done.
    assert (2 ^ 1043 < 2 ^ 1044) by (apply Z.pow_lt_mono_r; lia). lia. }
  revert Hov. unfold Py.round53.
  destruct (round53_mantissa (Z.abs n) Hb) as (Hsh & Hq1 & Hq2).
  destruct (Z.leb_spec (Z.log2 (Z.abs n) + 1) 53) as [Hle|_]; [lia|].
  set (sh := Z.log2 (Z.abs n) + 1 - 53) in *.
  set (q' := if _ || _ then _ else _).
  assert (0 <= q' <= 2 ^ 53) as Hq' by (unfold q'; destruct (_ || _); lia).
  rewrite Z.shiftl_mul_pow2 by lia.
  assert (0 < 2 ^ sh) as Hp by (apply Z.pow_pos_nonneg; lia).
  assert (Z.log2 (Z.abs n) < 1043) as Hlog by (apply Z.log2_lt_pow2; lia).
  assert (2 ^ 53 * 2 ^ sh <= 2 ^ 1043) as Hbound.
  { rewrite <- Z.pow_add_r by lia. apply Z.pow_le_mono_r; unfold sh; lia. }
  assert (2 ^ 1043 < 2 ^ 1044) by (apply Z.pow_lt_mono_r; lia).
  rewrite Z.abs_mul.
  assert (Z.abs (Z.sgn n) <= 1) by (destruct n; simpl; lia).
  rewrite (Z.abs_eq (q' * 2 ^ sh)) by nia.
  nia.
Qed.

End Rounding.

Section Text.

Lemma contains_app (c : ascii) (a b : string) :
  Py.contains c (a +:+ b) = Py.contains c a || Py.contains c b.
Proof.
  induction a as [|d a IH]; [done|].
  change (String d a +:+ b) with (String d (a +:+ b)).
  simpl. by rewrite IH, orb_assoc.
Qed.

Lemma join_if_app (keep : ascii → bool) (a b : string) :
  Py.join_if keep (a +:+ b) = Py.join_if keep a +:+ Py.join_if keep b.
Proof.
  induction a as [|d a IH]; [done|].
  change (String d a +:+ b) with (String d (a +:+ b)).
  simpl. destruct (keep d); [|done].
  change (String d (Py.join_if keep a) +:+ Py.join_if keep b)
    with (String d (Py.join_if keep a +:+ Py.join_if keep b)).
  by rewrite IH.
Qed.

(** Whatever [join_if] lets through passed the test. *)
Lemma join_if_kept (keep : ascii → bool) (s : string) (c : ascii) :
  Py.contains c (Py.join_if keep s) = true → keep c = true.
Proof.
  induction s as [|d s IH]; simpl; [done|].
  destruct (keep d) eqn:Hd; [|done].
  simpl. intros [Heq|Hin]%orb_true_iff; [|by apply IH].
  by apply Ascii.eqb_eq in Heq as ->.
Qed.

(** A text whose characters all pass the test is left as it is. *)
Lemma join_if_all (keep : ascii → bool) (s : string) :
  (∀ c, Py.contains c s = true → keep c = true) → Py.join_if keep s = s.
Proof.
  induction s as [|d s IH]; simpl; [done|]. intros Hall.
  rewrite (Hall d) by (by rewrite Ascii.eqb_refl).
  f_equal. apply IH. intros c Hc. apply Hall. by rewrite Hc, orb_true_r.
Qed.

Lemma length_app (a b : string) :
  String.length (a +:+ b) = (String.length a + String.length b)%nat.
Proof.
  induction a as [|d a IH]; [done|].
  change (String d a +:+ b) with (String d (a +:+ b)). simpl. by rewrite IH.
Qed.

Lemma app_inj_r (a b s : string) : a +:+ s = b +:+ s → a = b.
Proof.
  revert b. induction a as [|c a IH]; intros [|d b] Heq; [done|..].
  - apply (f_equal String.length) in Heq.
    rewrite !length_app in Heq. simpl in Heq. lia.
  - apply (f_equal String.length) in Heq.
    rewrite !length_app in Heq. simpl in Heq. lia.
  - change (String c (a +:+ s) = String d (b +:+ s)) in Heq.
    injection Heq as -> Heq. f_equal. by apply IH.
Qed.

(** *** Decimal numerals *)

Lemma pretty_N_char_digit (x : N) : Py.between 48 57 (pretty_N_char x) = true.
Proof. unfold pretty_N_char. by repeat case_match. Qed.

Lemma pretty_N_go_digits (x : N) (s : string) (c : ascii) :
  Py.contains c (pretty_N_go x s) = true →
  Py.between 48 57 c = true ∨ Py.contains c s = true.
Proof.
  revert s. induction (N.lt_wf_0 x) as [x _ IH]; intros s.
  assert (x = 0 ∨ 0 < x)%N as [->|Hx] by lia.
  { rewrite pretty_N_go_0. auto. }
  rewrite pretty_N_go_step by done.
  intros [Hd|Hin]%IH; [by left|..].
  - simpl in Hin. apply orb_true_iff in Hin as [Heq|Hin]; [|by right].
    apply Ascii.eqb_eq in Heq as ->. left. apply pretty_N_char_digit.
  - by apply N.div_lt.
Qed.

Lemma pretty_N_digits (x : N) (c : ascii) :
  Py.contains c (pretty x) = true → Py.between 48 57 c = true.
Proof.
  unfold pretty, pretty_N. case_decide.
  - simpl. rewrite orb_false_r. intros He%Ascii.eqb_eq. by subst.
  - intros [?|?]%pretty_N_go_digits; done.
Qed.

(** [str(z)] is made of digits and, for a negative [z], a leading dash. *)
Lemma pretty_Z_digits (z : Z) (c : ascii) :
  Py.contains c (pretty z) = true → digits_or_dash c = true.
Proof.
  unfold digits_or_dash, pretty, pretty_Z. destruct z as [|p|p].
  - simpl. rewrite orb_false_r. intros He%Ascii.eqb_eq. by subst.
  - intros Hc. by rewrite (pretty_N_digits (Npos p) c Hc).
  - change ("-" +:+ pretty p) with (String "-" (pretty p)). simpl.
    intros [Heq|Hc]%orb_true_iff.
    + by rewrite Heq, orb_true_r.
    + by rewrite (pretty_N_digits (Npos p) c Hc).
Qed.

Lemma safe_char_digits_or_dash (c : ascii) :
  digits_or_dash c = true → safe_char c = true.
Proof.
  unfold digits_or_dash, safe_char, Py.isalnum.
  intros [Hd|He%Ascii.eqb_eq]%orb_true_iff; [by rewrite Hd|by subst].
Qed.

(** *** Stem and suffix *)

Lemma after_last_split (c : ascii) (s ext : string) :
  Py.after_last c s = Some ext →
  let i := (String.length s - S (String.length ext))%nat in
  s = substring 0 i s +:+ String c ext
  ∧ (S (String.length ext) <= String.length s)%nat.
Proof.
  revert ext. induction s as [|d s IH]; intros ext; simpl; [done|].
  destruct (Py.after_last c s) as [t|] eqn:Ht.
  - intros [= ->]. destruct (IH ext eq_refl) as [Heq Hlen].
    split; [|lia].
    replace (String.length s - String.length ext)%nat
      with (S (String.length s - S (String.length ext))) by lia.
    simpl. change (String d ?a +:+ ?b) with (String d (a +:+ b)).
    by rewrite <- Heq.
  - destruct (Ascii.eqb_spec c d) as [->|]; [|done].
    intros [= ->]. rewrite Nat.sub_diag. split; [done|lia].
Qed.

(** The stem followed by the suffix is the name. *)
Lemma stem_suffix (name : string) : Py.stem name +:+ Py.suffix name = name.
Proof.
  unfold Py.stem, Py.suffix, Py.split_suffix.
  destruct (Py.after_last "." name) as [ext|] eqn:Hext; simpl.
  - destruct (after_last_split _ _ _ Hext) as [Heq _].
    destruct (_ && _); simpl; [symmetry; exact Heq|].
    clear. induction name as [|c n IH]; [done|].
    change (String c n +:+ "") with (String c (n +:+ "")). by rewrite IH.
  - clear. induction name as [|c n IH]; [done|].
    change (String c n +:+ "") with (String c (n +:+ "")). by rewrite IH.
Qed.

End Text.

(* ===================================================================== *)
(** ** Header validation *)
(* ===================================================================== *)

Section Validation.
Context `{Runtime}.

(** A content type that, once lowercased, does not start with [image/]
    is rejected with the message naming it. *)
Lemma validate_not_image (r : Response) :
  Py.startswith (Py.lower (default "" (content_type_header r))) "image/" = false →
  _validate_image_headers r
  = Return (false, "Content-Type '" +:+ Py.lower (default "" (content_type_header r))
                     +:+ "' is not an image").
Proof. intros Hct. unfold _validate_image_headers. by rewrite Hct. Qed.

Lemma int_empty (max_digits : N) : Py.int max_digits "" = None.
Proof. done. Qed.

(** With an image content type and a content length that [int] converts
    to [n], the verdict is the one of [n / (1024 * 1024) > 50], unless
    the division overflows. *)
Lemma validate_size (r : Response) (text : string) (n : Z) :
  Py.startswith (Py.lower (default "" (content_type_header r))) "image/" = true →
  content_length_header r = Some text →
  Py.int int_max_str_digits text = Some n →
  _validate_image_headers r
  = let! size_mb := Py.truediv_mib n in
    if 50 * Py.MIB <? n
    then Return (false, "Image too large (" +:+ Py.format_1f size_mb
                          +:+ "MB). Limit: 50MB")
    else Return (true, "Headers validated successfully").
Proof.
  intros Hct Hcl Hint. unfold _validate_image_headers.
  rewrite Hct, Hcl. simpl.
  destruct text as [|c text]; [by rewrite int_empty in Hint|].
  rewrite Hint. unfold Py.truediv_mib.
  destruct (2 ^ 1044 <=? _); simpl; [done|].
  by rewrite gt_50_round53.
Qed.

(** The same, for lengths whose quotient is in the range of a float. *)
Lemma validate_size_in_range (r : Response) (text : string) (n : Z) :
  Py.startswith (Py.lower (default "" (content_type_header r))) "image/" = true →
  content_length_header r = Some text →
  Py.int int_max_str_digits text = Some n →
  Z.abs n < 2 ^ 1043 →
  _validate_image_headers r
  = if 50 * Py.MIB <? n
    then Return (false, "Image too large (" +:+ Py.format_1f (Py.round53 n)
                          +:+ "MB). Limit: 50MB")
    else Return (true, "Headers validated successfully").
Proof.
  intros Hct Hcl Hint Hn.
  rewrite (validate_size r text n Hct Hcl Hint).
  by rewrite truediv_mib_in_range.
Qed.

End Validation.

(** 51 MB is refused and 49 MB is accepted. *)
Example validate_51_mb :
  @_validate_image_headers Demo.runtime
    (Demo.response (Some "image/jpeg") (Some "53477376"))
  = Return (false, "Image too large (51.0MB). Limit: 50MB").
Proof. vm_compute. reflexivity. Qed.

Example validate_49_mb :
  @_validate_image_headers Demo.runtime
    (Demo.response (Some "image/jpeg") (Some "51380224"))
  = Return (true, "Headers validated successfully").
Proof. vm_compute. reflexivity. Qed.

(** The ceiling itself is accepted, one byte more is refused. *)
Example validate_at_ceiling :
  @_validate_image_headers Demo.runtime
    (Demo.response (Some "image/jpeg") (Some "52428800"))
  = Return (true, "Headers validated successfully")
  ∧ @_validate_image_headers Demo.runtime
      (Demo.response (Some "image/jpeg") (Some "52428801"))
    = Return (false, "Image too large (50.0MB). Limit: 50MB").
Proof. split; vm_compute; reflexivity. Qed.

(** C2, as stated, fails: a declared content type in upper case does not
    begin with the prefix [image/], and validation accepts it, because the
    declared type is lowercased before the test. *)
Lemma uppercase_image_type_is_accepted :
  ¬ (∀ (R : Runtime) (r : Response) (declared : string),
       content_type_header r = Some declared →
       Py.startswith declared "image/" = false →
       ∃ message, _validate_image_headers r = Return (false, message)).
Proof.
  intros Hclaim.
  destruct (Hclaim Demo.runtime (Demo.response (Some "IMAGE/PNG") None)
              "IMAGE/PNG" eq_refl eq_refl) as [message Hm].
  vm_compute in Hm. discriminate Hm.
Qed.

(** C2 (amended): for every response whose declared content type, compared
    without regard to case (that is, lowercased), does not begin with
    [image/], header validation returns failure together with a message that
    names the lowercased type; in particular a declared [text/html] fails
    whatever the declared content length is. *)
Theorem non_image_content_type_rejected `{Runtime} (r : Response) :
  (Py.startswith (Py.lower (default "" (content_type_header r))) "image/" = false →
   _validate_image_headers r
   = Return (false, "Content-Type '" +:+ Py.lower (default "" (content_type_header r))
                      +:+ "' is not an image"))
  ∧ (content_type_header r = Some "text/html" →
     _validate_image_headers r
     = Return (false, "Content-Type 'text/html' is not an image")).
Proof.
  split; [apply validate_not_image|].
  intros Hct. rewrite validate_not_image; by rewrite Hct.
Qed.

Lemma non_image_content_type_rejected_witness :
  let r := Demo.response (Some "Text/HTML; charset=utf-8") (Some "12") in
  Py.startswith (Py.lower (default "" (content_type_header r))) "image/" = false
  ∧ @_validate_image_headers Demo.runtime r
    = Return (false, "Content-Type 'text/html; charset=utf-8' is not an image")
  ∧ @_validate_image_headers Demo.runtime (Demo.response (Some "text/html") (Some "12"))
    = Return (false, "Content-Type 'text/html' is not an image").
Proof.
  split; [reflexivity|]. split.
  - exact (proj1 (@non_image_content_type_rejected Demo.runtime
                    (Demo.response (Some "Text/HTML; charset=utf-8") (Some "12")))
             eq_refl).
  - exact (proj2 (@non_image_content_type_rejected Demo.runtime
                    (Demo.response (Some "text/html") (Some "12")))
             eq_refl).
Defined.

(** C3, at the inputs where the code leaves the claim: a content length of
    321 digits is converted by [int], but dividing it by [1024 * 1024]
    raises [OverflowError], which the [except ValueError] of the validator
    does not catch.  For the negative length the quotient is below 50 and
    validation does not pass; for the positive one no verdict is returned. *)
Theorem huge_content_length_raises `{Runtime} :
  let negative := "-1" +:+ Demo.zeros 320 in
  let positive := "1" +:+ Demo.zeros 320 in
  Py.int int_max_str_digits negative = Some (- 10 ^ 320)
  ∧ (50 * Py.MIB <? - 10 ^ 320) = false
  ∧ _validate_image_headers (Demo.response (Some "image/jpeg") (Some negative))
    = Raise OverflowError
  ∧ Py.int int_max_str_digits positive = Some (10 ^ 320)
  ∧ _validate_image_headers (Demo.response (Some "image/jpeg") (Some positive))
    = Raise OverflowError.
Proof.
  assert (Py.int int_max_str_digits ("-1" +:+ Demo.zeros 320) = Some (- 10 ^ 320))
    as Hneg by (vm_compute; reflexivity).
  assert (Py.int int_max_str_digits ("1" +:+ Demo.zeros 320) = Some (10 ^ 320))
    as Hpos by (vm_compute; reflexivity).
  split; [exact Hneg|]. split; [reflexivity|]. split; [|split; [exact Hpos|]].
  - rewrite (validate_size (Demo.response (Some "image/jpeg") _) _ _
               eq_refl eq_refl Hneg).
    vm_compute. reflexivity.
  - rewrite (validate_size (Demo.response (Some "image/jpeg") _) _ _
               eq_refl eq_refl Hpos).
    vm_compute. reflexivity.
Qed.

(** C9: with an image content type, a declared content length that [int]
    does not convert is taken as an unknown size, and validation succeeds. *)
Theorem unparseable_content_length_accepted `{Runtime} (r : Response) (text : string) :
  Py.startswith (Py.lower (default "" (content_type_header r))) "image/" = true →
  content_length_header r = Some text →
  Py.int int_max_str_digits text = None →
  _validate_image_headers r = Return (true, "Headers validated successfully").
Proof.
  intros Hct Hcl Hint. unfold _validate_image_headers.
  rewrite Hct, Hcl. simpl. destruct text; [done|]. by rewrite Hint.
Qed.

Lemma unparseable_content_length_accepted_witness :
  let r := Demo.response (Some "image/png") (Some "12 kB") in
  Py.int 4300 "12 kB" = None
  ∧ @_validate_image_headers Demo.runtime r
    = Return (true, "Headers validated successfully").
Proof.
  split; [reflexivity|].
  exact (@unparseable_content_length_accepted Demo.runtime
           (Demo.response (Some "image/png") (Some "12 kB")) "12 kB"
           eq_refl eq_refl eq_refl).
Defined.

(** C10: when the response has no Content-Type header at all, the declared
    type is taken to be the empty text, and validation fails with the
    message for a type that is not an image. *)
Theorem missing_content_type_rejected `{Runtime} (r : Response) :
  content_type_header r = None →
  _validate_image_headers r = Return (false, "Content-Type '' is not an image").
Proof. intros Hct. rewrite validate_not_image; by rewrite Hct. Qed.

Lemma missing_content_type_rejected_witness :
  @_validate_image_headers Demo.runtime (Demo.response None (Some "9"))
  = Return (false, "Content-Type '' is not an image").
Proof.
  exact (@missing_content_type_rejected Demo.runtime
           (Demo.response None (Some "9")) eq_refl).
Defined.

(* ===================================================================== *)
(** ** Filename resolution *)
(* ===================================================================== *)

Section Filenames.
Context `{Runtime}.

(** Sanitizing a synthesized name only touches its extension. *)
Lemma prefix_and_timestamp_kept (z : Z) (extension : string) :
  Py.join_if safe_char ("ubuntu_image_" +:+ pretty z +:+ extension)
  = "ubuntu_image_" +:+ pretty z +:+ Py.join_if safe_char extension.
Proof.
  rewrite !join_if_app. f_equal. f_equal.
  apply join_if_all. intros c Hc.
  by apply safe_char_digits_or_dash, (pretty_Z_digits z).
Qed.

Lemma safe_char_cases (c : ascii) :
  safe_char c = true → Py.isalnum c = true ∨ c = "."%char ∨ c = "-"%char ∨ c = "_"%char.
Proof.
  unfold safe_char. intros [?|Hin]%orb_true_iff; [by left|right].
  simpl in Hin. rewrite orb_false_r in Hin.
  apply orb_true_iff in Hin as [?%Ascii.eqb_eq|Hin]; [by left|right].
  apply orb_true_iff in Hin as [?%Ascii.eqb_eq|?%Ascii.eqb_eq]; [by left|by right].
Qed.

End Filenames.

(** C7: when the decoded final path segment of the URL is empty or has no
    dot, the resolver synthesizes the name from the fixed prefix
    [ubuntu_image_], the clock's Unix time in seconds and the extension
    guessed from the content type, [.jpg] when none is known; the name is
    then sanitized like any other, which leaves the prefix and the time
    as they are. *)
Theorem synthesized_filename `{Runtime} (w : World) (url content_type path : string) :
  urlparse_path url = Return path →
  Py.basename (unquote path) = "" ∨ Py.contains "." (Py.basename (unquote path)) = false →
  let extension :=
    match guess_extension content_type with
    | None | Some "" => ".jpg"
    | Some e => e
    end in
  _generate_filename w url content_type
  = Return (Py.join_if safe_char ("ubuntu_image_" +:+ pretty (time_time w) +:+ extension))
  ∧ Py.join_if safe_char ("ubuntu_image_" +:+ pretty (time_time w) +:+ extension)
    = "ubuntu_image_" +:+ pretty (time_time w) +:+ Py.join_if safe_char extension
  ∧ (guess_extension content_type = None →
     _generate_filename w url content_type
     = Return ("ubuntu_image_" +:+ pretty (time_time w) +:+ ".jpg")).
Proof.
  intros Hpath Hseg extension.
  assert (_generate_filename w url content_type
          = Return (Py.join_if safe_char
                      ("ubuntu_image_" +:+ pretty (time_time w) +:+ extension)))
    as Hgen.
  { unfold _generate_filename. rewrite Hpath. simpl.
    destruct Hseg as [-> | ->]; [done|]. by rewrite orb_true_r. }
  split; [exact Hgen|]. split; [apply prefix_and_timestamp_kept|].
  intros Hnone. rewrite Hgen, prefix_and_timestamp_kept.
  unfold extension. by rewrite Hnone.
Qed.

Lemma synthesized_filename_witness :
  let url := "https://example.com/pics/latest" in
  @urlparse_path Demo.runtime url = Return "/pics/latest"
  ∧ @_generate_filename Demo.runtime (Demo.world true) url "image/gif"
    = Return "ubuntu_image_1700000000.gif"
  ∧ @_generate_filename Demo.runtime (Demo.world true) url "image/x-unknown"
    = Return "ubuntu_image_1700000000.jpg".
Proof.
  split; [reflexivity|]. split.
  - exact (proj1 (@synthesized_filename Demo.runtime (Demo.world true)
                    "https://example.com/pics/latest" "image/gif" "/pics/latest"
                    eq_refl (or_intror eq_refl))).
  - exact (proj2 (proj2 (@synthesized_filename Demo.runtime (Demo.world true)
                    "https://example.com/pics/latest" "image/x-unknown" "/pics/latest"
                    eq_refl (or_intror eq_refl))) eq_refl).
Defined.

(** [join_if] is the filter of the standard library on the characters. *)
Lemma join_if_filter (keep : ascii → bool) (s : string) :
  list_ascii_of_string (Py.join_if keep s)
  = List.filter keep (list_ascii_of_string s).
Proof.
  induction s as [|c s IH]; [done|]. simpl.
  destruct (keep c); simpl; by rewrite IH.
Qed.

(** C8: for every URL and content type, the filename the resolver returns
    is the chosen candidate (the decoded final path segment of the URL, or
    the synthesized name when that segment is empty or has no dot) from
    which every character that is neither alphanumeric nor one of [.],
    [-], [_] has been removed, the others staying in their order; so every
    character of the result is one of these.  The resolver returns a
    filename whenever the URL parser returns a path, and raises what the
    parser raises. *)
Theorem generated_filename_is_safe `{Runtime} (w : World) (url content_type : string) :
  match urlparse_path url with
  | Raise e => _generate_filename w url content_type = Raise e
  | Return path =>
      let segment := Py.basename (unquote path) in
      let candidate :=
        if String.eqb segment "" || negb (Py.contains "." segment)
        then "ubuntu_image_" +:+ pretty (time_time w)
             +:+ match guess_extension content_type with
                 | None | Some "" => ".jpg"
                 | Some e => e
                 end
        else segment in
      ∃ filename,
        _generate_filename w url content_type = Return filename
        ∧ list_ascii_of_string filename
          = List.filter (λ c, Py.isalnum c || Py.contains c ".-_")
              (list_ascii_of_string candidate)
        ∧ ∀ c, Py.contains c filename = true →
               Py.isalnum c = true ∨ c = "."%char ∨ c = "-"%char ∨ c = "_"%char
  end.
Proof.
  unfold _generate_filename.
  destruct (urlparse_path url) as [path|e]; cbn [bind]; [|done].
  eexists. split; [reflexivity|]. split.
  - apply join_if_filter.
  - intros c Hc. by apply join_if_kept, safe_char_cases in Hc.
Qed.

Example generated_filename_sanitized :
  @_generate_filename Demo.runtime (Demo.world true)
    "https://example.com/pics/my cat (1)!.png" "image/png"
  = Return "mycat1.png".
Proof. vm_compute. reflexivity. Qed.

(* ===================================================================== *)
(** ** Filename conflicts *)
(* ===================================================================== *)

Section Conflicts.
Variable st : fetcher.
Variables stem suffix : string.

Lemma candidate_has_underscore (k : N) :
  Py.contains "_" (stem +:+ "_" +:+ pretty k +:+ suffix) = true.
Proof.
  rewrite contains_app.
  change ("_" +:+ pretty k +:+ suffix) with (String "_" (pretty k +:+ suffix)).
  simpl. by rewrite orb_true_r.
Qed.

(** A candidate is the stem, an underscore, the counter and the suffix,
    joined to the directory as it is. *)
Lemma candidate_eq (k : N) :
  candidate stem suffix k = stem +:+ "_" +:+ pretty k +:+ suffix.
Proof.
  unfold candidate, joinpath.
  destruct (String.eqb_spec (stem +:+ "_" +:+ pretty k +:+ suffix) ".") as [Heq|]; [|done].
  pose proof (candidate_has_underscore k) as Hc. by rewrite Heq in Hc.
Qed.

Lemma candidate_inj (j k : N) :
  candidate stem suffix j = candidate stem suffix k → j = k.
Proof.
  rewrite !candidate_eq. intros Heq.
  apply (inj (String.app stem)) in Heq.
  change ("_" +:+ pretty ?x +:+ suffix) with (String "_" (pretty x +:+ suffix)) in Heq.
  injection Heq as Heq. apply app_inj_r in Heq. by apply (inj pretty) in Heq.
Qed.

(** A candidate exists exactly when the directory has an entry of that
    name: it is neither the directory nor its parent. *)
Lemma candidate_exists (k : N) :
  path_exists st (candidate stem suffix k)
  = bool_decide (candidate stem suffix k ∈ dom (files st)).
Proof.
  unfold path_exists.
  pose proof (candidate_has_underscore k) as Hc. rewrite <- candidate_eq in Hc.
  destruct (String.eqb_spec (candidate stem suffix k) "") as [Heq|_].
  { by rewrite Heq in Hc. }
  destruct (String.eqb_spec (candidate stem suffix k) "..") as [Heq|_].
  { by rewrite Heq in Hc. }
  done.
Qed.

(** What the loop returns does not exist, and it is either the path it
    was given or the first free candidate from [counter] on. *)
Lemma conflict_loop_sound (fuel : nat) (counter : N) (filepath r : string) :
  conflict_loop fuel st stem suffix counter filepath = Some r →
  path_exists st r = false
  ∧ (path_exists st filepath = false ∧ r = filepath
     ∨ path_exists st filepath = true
       ∧ ∃ k, (counter <= k)%N ∧ r = candidate stem suffix k
              ∧ ∀ j, (counter <= j < k)%N →
                     path_exists st (candidate stem suffix j) = true).
Proof.
  revert counter filepath.
  induction fuel as [|fuel IH]; intros counter filepath; simpl;
    destruct (path_exists st filepath) eqn:Hex; try done.
  - intros [= <-]. auto.
  - intros (Hfree & [[Hnone ->] | [Hsome (k & Hk & -> & Hall)]])%IH.
    + split; [done|]. right. split; [done|].
      exists counter. split; [lia|]. split; [done|]. intros j Hj. lia.
    + split; [done|]. right. split; [done|].
      exists k. split; [lia|]. split; [done|]. intros j Hj.
      destruct (decide (j = counter)) as [->|]; [done|]. apply Hall. lia.
  - intros [= <-]. auto.
Qed.

(** The loop ends as soon as the fuel reaches a free candidate. *)
Lemma conflict_loop_complete (fuel : nat) (counter k : N) (filepath : string) :
  (counter <= k < counter + N.of_nat fuel)%N →
  path_exists st (candidate stem suffix k) = false →
  is_Some (conflict_loop fuel st stem suffix counter filepath).
Proof.
  revert counter filepath.
  induction fuel as [|fuel IH]; intros counter filepath Hk Hfree; [lia|].
  simpl. destruct (path_exists st filepath); [|done].
  destruct (decide (k = counter)) as [->|Hne].
  - destruct fuel; simpl; by rewrite Hfree.
  - apply IH; [lia|done].
Qed.

(** More fuel than needed changes nothing. *)
Lemma conflict_loop_more_fuel (fuel extra : nat) (counter : N) (filepath r : string) :
  conflict_loop fuel st stem suffix counter filepath = Some r →
  conflict_loop (fuel + extra) st stem suffix counter filepath = Some r.
Proof.
  revert counter filepath.
  induction fuel as [|fuel IH]; intros counter filepath; simpl.
  - destruct (path_exists st filepath) eqn:Hex; [done|].
    intros [= <-]. destruct extra; simpl; by rewrite Hex.
  - destruct (path_exists st filepath); [apply IH|done].
Qed.

(** Among the first [size + 1] candidates one is free: they are distinct
    names, and the directory has only [size] entries. *)
Lemma free_candidate :
  ∃ k, (1 <= k < 1 + N.of_nat (S (size (files st))))%N
       ∧ path_exists st (candidate stem suffix k) = false.
Proof.
  set (n := size (files st)).
  set (ks := N.of_nat <$> seq 1 (S n)).
  set (names := candidate stem suffix <$> ks).
  destruct (decide (Forall (λ x, x ∈ dom (files st)) names)) as [Hall|Hnot].
  - exfalso.
    assert (NoDup names) as Hnd.
    { apply NoDup_fmap_2_strong.
      - intros j k _ _. apply candidate_inj.
      - apply NoDup_fmap_2; [apply _|apply NoDup_seq]. }
    assert (list_to_set names ⊆ dom (files st)) as Hsub.
    { intros x Hx%elem_of_list_to_set. by eapply Forall_forall in Hall. }
    apply subseteq_size in Hsub.
    rewrite size_list_to_set, size_dom in Hsub by done.
    unfold names, ks in Hsub. rewrite !length_fmap, length_seq in Hsub.
    fold n in Hsub. lia.
  - apply not_Forall_Exists in Hnot; [|apply _].
    apply Exists_exists in Hnot as (x & Hx & Hfree).
    unfold names in Hx. apply list_elem_of_fmap in Hx as (k & -> & Hk).
    unfold ks in Hk. apply list_elem_of_fmap in Hk as (i & -> & Hi).
    apply elem_of_seq in Hi.
    exists (N.of_nat i). split; [fold n; lia|].
    rewrite candidate_exists. by apply bool_decide_eq_false.
Qed.

End Conflicts.

(** The loop of [fetch_image] always ends with a path. *)
Lemma handle_filename_conflicts_total (st : fetcher) (filepath : string) :
  is_Some (handle_filename_conflicts st filepath).
Proof.
  unfold handle_filename_conflicts.
  destruct (free_candidate st (Py.stem (path_name st filepath))
              (Py.suffix (path_name st filepath))) as (k & Hk & Hfree).
  by eapply conflict_loop_complete.
Qed.

(** A path that does not exist is kept. *)
Lemma handle_filename_conflicts_free (st : fetcher) (filepath : string) :
  path_exists st filepath = false →
  handle_filename_conflicts st filepath = Some filepath.
Proof. intros Hfree. unfold handle_filename_conflicts. simpl. by rewrite Hfree. Qed.

(** C4, at the input where the code leaves the claim: for a URL whose
    decoded path ends in [/.] the resolver returns the filename [.];
    joined to the download directory this is the directory itself, which
    exists, and the loop then numbers the name of the directory, not the
    resolved filename: the image is saved inside the directory under the
    directory's own name followed by [_1] (or the first free counter). *)
Theorem dot_filename_takes_directory_name `{Runtime} (w : World) (st : fetcher)
  (url content_type path : string) :
  urlparse_path url = Return path →
  Py.basename (unquote path) = "." →
  _generate_filename w url content_type = Return "."
  ∧ path_exists st (joinpath ".") = true
  ∧ ∃ k : N,
      (1 <= k)%N
      ∧ handle_filename_conflicts st (joinpath ".")
        = Some (Py.stem (download_dir st) +:+ "_" +:+ pretty k
                +:+ Py.suffix (download_dir st)).
Proof.
  intros Hpath Hseg. split.
  { unfold _generate_filename. rewrite Hpath. cbn [bind]. by rewrite Hseg. }
  split; [done|].
  destruct (handle_filename_conflicts_total st (joinpath ".")) as [r Hr].
  pose proof Hr as Hloop. unfold handle_filename_conflicts in Hloop.
  apply conflict_loop_sound in Hloop
    as (Hfree & [[Hnone _] | [_ (k & Hk & -> & Hall)]]); [done|].
  exists k. split; [done|]. by rewrite candidate_eq in Hr.
Qed.

Lemma dot_filename_takes_directory_name_witness :
  @_generate_filename Demo.runtime (Demo.world true) "https://example.com/pics/."
    "image/png" = Return "."
  ∧ ∃ k : N,
      handle_filename_conflicts Demo.empty_fetcher (joinpath ".")
      = Some ("Fetched_Images" +:+ "_" +:+ pretty k +:+ "").
Proof.
  destruct (@dot_filename_takes_directory_name Demo.runtime (Demo.world true)
              Demo.empty_fetcher "https://example.com/pics/." "image/png" "/pics/."
              eq_refl eq_refl) as (Hgen & _ & k & _ & Hr).
  split; [exact Hgen|]. exists k. exact Hr.
Defined.

(** The fetch of such a URL into an empty directory. *)
Example fetch_url_ending_in_dot :
  let r := @fetch_image Demo.runtime (Demo.world true) Demo.empty_fetcher
             "https://example.com/pics/." in
  r.2 = true
  ∧ map_to_list (files r.1)
    = [(HASH_FILE, "digest-of-PNG-BYTES" +:+ NL); ("Fetched_Images_1", "PNG-BYTES")].
Proof. split; vm_compute; reflexivity. Qed.

(** X22: when the resolved filename is not [.] and already exists in the
    download directory, the name that is used is its stem, then [_k], then
    its extension, for the first counter [k = 1, 2, ...] whose candidate
    does not exist: the candidates below [k] all exist and were tried in
    sequence.  With [photo.jpg] present the result is [photo_1.jpg]; with
    both present it is [photo_2.jpg]. *)
Theorem existing_filename_gets_counter :
  (∀ (st : fetcher) (filename : string),
     filename ≠ "" → filename ≠ "." →
     path_exists st (joinpath filename) = true →
     ∃ k : N,
       (1 <= k)%N
       ∧ handle_filename_conflicts st (joinpath filename)
         = Some (Py.stem filename +:+ "_" +:+ pretty k +:+ Py.suffix filename)
       ∧ Py.stem filename +:+ Py.suffix filename = filename
       ∧ path_exists st (Py.stem filename +:+ "_" +:+ pretty k +:+ Py.suffix filename)
         = false
       ∧ ∀ j : N, (1 <= j < k)%N →
           path_exists st (Py.stem filename +:+ "_" +:+ pretty j +:+ Py.suffix filename)
           = true)
  ∧ handle_filename_conflicts (Demo.fetcher_with ["photo.jpg"]) (joinpath "photo.jpg")
    = Some "photo_1.jpg"
  ∧ handle_filename_conflicts (Demo.fetcher_with ["photo.jpg"; "photo_1.jpg"])
      (joinpath "photo.jpg")
    = Some "photo_2.jpg".
Proof.
  split; [|split; vm_compute; reflexivity].
  intros st filename Hne Hdot Hex.
  assert (joinpath filename = filename) as Hjoin.
  { unfold joinpath. by destruct (String.eqb_spec filename "."). }
  assert (path_name st (joinpath filename) = filename) as Hname.
  { rewrite Hjoin. unfold path_name. by destruct (String.eqb_spec filename ""). }
  destruct (handle_filename_conflicts_total st (joinpath filename)) as [r Hr].
  pose proof Hr as Hloop. unfold handle_filename_conflicts in Hloop.
  rewrite Hname in Hloop.
  apply conflict_loop_sound in Hloop
    as (Hfree & [[Hnone _] | [_ (k & Hk & -> & Hall)]]); [congruence|].
  exists k. rewrite candidate_eq in Hr, Hfree.
  split; [done|]. split; [done|]. split; [apply stem_suffix|]. split; [done|].
  intros j Hj. rewrite <- candidate_eq. by apply Hall.
Qed.

Lemma existing_filename_gets_counter_witness :
  let st := Demo.fetcher_with ["a.tar.gz"; "a.tar_1.gz"; "a.tar_2.gz"] in
  path_exists st (joinpath "a.tar.gz") = true
  ∧ ∃ k : N,
      (1 <= k)%N
      ∧ handle_filename_conflicts st (joinpath "a.tar.gz")
        = Some ("a.tar" +:+ "_" +:+ pretty k +:+ ".gz").
Proof.
  split; [reflexivity|].
  destruct (proj1 existing_filename_gets_counter
              (Demo.fetcher_with ["a.tar.gz"; "a.tar_1.gz"; "a.tar_2.gz"])
              "a.tar.gz") as (k & Hk & Hr & _).
  - discriminate.
  - discriminate.
  - reflexivity.
  - exists k. split; [exact Hk|exact Hr].
Defined.


(* ===================================================================== *)
(** ** Duplicates and the hash store *)
(* ===================================================================== *)

(** C1: whenever a fetch gets as far as hashing the downloaded content (the
    probe was accepted and the download returned a body) and that hash is
    already in the in-memory set, [fetch_image] prints the duplicate
    notice, leaves the directory and the hash set as they were, and returns
    [True]. *)
Theorem duplicate_is_reported_not_written `{Runtime} (w : World) (st : fetcher)
  (url message body : string) (response : Response) :
  probe w url = Return (true, message) →
  download w url = Return (response, body) →
  _get_file_hash body ∈ downloaded_hashes st →
  ∃ st', fetch_image w st url = (st', true)
    ∧ files st' = files st
    ∧ downloaded_hashes st' = downloaded_hashes st
    ∧ trace st' = trace st ++ [Print (Connecting url); Print (Accepted message);
                               Print Downloading; Print DuplicateDetected].
Proof.
  intros Hprobe Hdown Hdup.
  unfold fetch_image, fetch_try. rewrite Hprobe, Hdown. simpl.
  rewrite bool_decide_eq_true_2 by done.
  eexists. split; [reflexivity|]. simpl. by rewrite <- !app_assoc.
Qed.

Lemma duplicate_is_reported_not_written_witness :
  let w := Demo.world true in
  let st := (@fetch_image Demo.runtime w Demo.empty_fetcher
               "https://example.com/pics/cat.png").1 in
  @_get_file_hash Demo.runtime "PNG-BYTES" ∈ downloaded_hashes st
  ∧ ∃ st', @fetch_image Demo.runtime w st "https://example.com/pics/cat.png" = (st', true)
      ∧ files st' = files st.
Proof.
  assert (@_get_file_hash Demo.runtime "PNG-BYTES"
          ∈ downloaded_hashes (@fetch_image Demo.runtime (Demo.world true)
               Demo.empty_fetcher "https://example.com/pics/cat.png").1) as Hin.
  { apply (bool_decide_unpack _). vm_compute. exact I. }
  split; [exact Hin|].
  destruct (@duplicate_is_reported_not_written Demo.runtime (Demo.world true)
              (@fetch_image Demo.runtime (Demo.world true) Demo.empty_fetcher
                 "https://example.com/pics/cat.png").1
              "https://example.com/pics/cat.png" "Headers validated successfully"
              "PNG-BYTES" (Demo.response (Some "image/png") (Some "9"))
              eq_refl eq_refl Hin) as (st' & Hfetch & Hfiles & _).
  exists st'. split; [exact Hfetch|exact Hfiles].
Defined.

(** Printing does not change what the conflict loop sees. *)
Lemma conflict_loop_say (l : line) (fuel : nat) (st : fetcher) (stem suffix : string)
  (counter : N) (filepath : string) :
  conflict_loop fuel (say l st) stem suffix counter filepath
  = conflict_loop fuel st stem suffix counter filepath.
Proof.
  revert counter filepath. induction fuel as [|fuel IH]; intros counter filepath; simpl.
  - done.
  - by rewrite IH.
Qed.

Lemma handle_filename_conflicts_say (l : line) (st : fetcher) (filepath : string) :
  handle_filename_conflicts (say l st) filepath = handle_filename_conflicts st filepath.
Proof. unfold handle_filename_conflicts. by rewrite conflict_loop_say. Qed.

Section HashStore.
Context `{Runtime}.



End HashStore.

(** ** The batch runner *)
(* ===================================================================== *)

Section Batch.
Context `{Runtime}.

Lemma tally_counts (success : bool) (r : results) :
  successful (tally success r) = (successful r + (if success then 1 else 0))%nat
  ∧ failed (tally success r) = (failed r + (if success then 0 else 1))%nat
  ∧ total (tally success r) = total r.
Proof. destruct success; simpl; lia. Qed.

(** The loop adds one to [successful] for each fetch that returned
    [True], one to [failed] for each that returned [False], and leaves
    [total] alone. *)
Lemma batch_loop_counts (worlds : nat → World) (count i : nat)
  (urls : list string) (st : fetcher) (res : results) :
  let out := batch_outcomes worlds count i urls st in
  let res' := (batch_loop worlds count i urls st res).2 in
  successful res' = (successful res + length (List.filter id out))%nat
  ∧ failed res' = (failed res + length (List.filter negb out))%nat
  ∧ total res' = total res
  ∧ length out = length urls.
Proof.
  revert i st res. induction urls as [|url rest IH]; intros i st res; simpl.
  { repeat split; lia. }
  unfold batch_round.
  destruct (fetch_image (worlds i) (say (Processing i count) st) (Py.strip url))
    as [st1 success] eqn:Hfetch.
  simpl.
  destruct (IH (S i) (pause i count st1) (tally success res))
    as (Hs & Hf & Ht & Hl).
  destruct (tally_counts success res) as (Hs' & Hf' & Ht').
  rewrite Hs, Hf, Ht, Hs', Hf', Ht', Hl.
  destruct success; simpl; repeat split; lia.
Qed.

Lemma outcomes_partition (out : list bool) :
  (length (List.filter id out) + length (List.filter negb out))%nat = length out.
Proof. induction out as [|[] out IH]; simpl; lia. Qed.

End Batch.

(** C5: for every list of URLs, the summary returned by the batch runner
    has [successful + failed = total = len(urls)]; [successful] is the number
    of URLs for which [fetch_image], called on the trimmed URL, returned
    [True], and [failed] the number for which it returned [False]. *)
Theorem batch_summary_counts `{Runtime} (worlds : nat → World) (st : fetcher)
  (urls : list string) :
  let res := (fetch_multiple_images worlds st urls).2 in
  let out := batch_outcomes worlds (length urls) 1 urls
               (say (SessionStarted (length urls)) st) in
  (successful res + failed res)%nat = total res
  ∧ total res = length urls
  ∧ length out = length urls
  ∧ successful res = length (List.filter id out)
  ∧ failed res = length (List.filter negb out).
Proof.
  intros res out. unfold res, fetch_multiple_images.
  destruct (batch_loop_counts worlds (length urls) 1 urls
              (say (SessionStarted (length urls)) st)
              {| successful := 0; failed := 0; total := length urls |})
    as (Hs & Hf & Ht & Hl).
  fold out in Hs, Hf, Hl. simpl in Hs, Hf, Ht.
  pose proof (outcomes_partition out).
  rewrite Hs, Hf, Ht. repeat split; lia.
Qed.

(** The same image fetched twice in one batch: saved once, counted twice
    as a success. *)
Example batch_same_url_twice :
  (@fetch_multiple_images Demo.runtime (λ _, Demo.world true) Demo.empty_fetcher
     [" https://example.com/pics/cat.png"; "https://example.com/pics/cat.png "]).2
  = {| successful := 2; failed := 0; total := 2 |}
  ∧ dom (files (@fetch_multiple_images Demo.runtime (λ _, Demo.world true)
                  Demo.empty_fetcher
                  [" https://example.com/pics/cat.png";
                   "https://example.com/pics/cat.png "]).1)
    = {[ "cat.png"; HASH_FILE ]}.
Proof. split; vm_compute; reflexivity. Qed.


(* ===================================================================== *)
(** ** Runs of [fetch_image] *)
(* ===================================================================== *)

(** An empty directory and a URL that serves a PNG: the image is saved
    under the name taken from the URL and its hash is appended to the
    list. *)
Example fetch_cat_png :
  let r := @fetch_image Demo.runtime (Demo.world true) Demo.empty_fetcher
             "https://example.com/pics/cat.png" in
  r.2 = true
  ∧ map_to_list (files r.1)
    = [("cat.png", "PNG-BYTES"); (HASH_FILE, "digest-of-PNG-BYTES" +:+ NL)]
  ∧ trace r.1
    = [Print (Connecting "https://example.com/pics/cat.png");
       Print (Accepted "Headers validated successfully");
       Print Downloading; Print (Fetched "cat.png"); Print (SavedTo "cat.png");
       Print (Size 9); Print Strengthened].
Proof. repeat split; vm_compute; reflexivity. Qed.

(** A probe that declares a length of 321 digits: the overflow of the
    division leaves the validator as an exception, which the last handler
    of [fetch_image] reports. *)
Example fetch_with_huge_content_length :
  let w := {| session_head := λ _, Return (Demo.response (Some "image/jpeg")
                                             (Some ("1" +:+ Demo.zeros 320)));
              session_get := λ _, Return (Demo.response (Some "image/jpeg") None);
              time_time := 1700000000; open_wb := λ _, true; open_append := true;
              wb_failure := λ _, OpenFailed; append_failure := OpenFailed |} in
  let r := @fetch_image Demo.runtime w Demo.empty_fetcher "https://example.com/a.jpg" in
  r.2 = false
  ∧ trace r.1 = [Print (Connecting "https://example.com/a.jpg");
                 Print (UnexpectedFailed OverflowError)]
  ∧ files r.1 = ∅.
Proof. repeat split; vm_compute; reflexivity. Qed.


(* ===================================================================== *)
(** ** What every fetch keeps *)
(* ===================================================================== *)

Lemma string_app_nil_r (s : string) : s +:+ "" = s.
Proof.
  induction s as [|c s IH]; [done|].
  change (String c s +:+ "") with (String c (s +:+ "")). by rewrite IH.
Qed.

Lemma string_app_assoc (a b c : string) : (a +:+ b) +:+ c = a +:+ b +:+ c.
Proof.
  induction a as [|d a IH]; [done|].
  change (String d (a +:+ b) +:+ c = String d (a +:+ b +:+ c)).
  change (String d ((a +:+ b) +:+ c) = String d (a +:+ b +:+ c)). by rewrite IH.
Qed.

Lemma keeps_refl (st : fetcher) : keeps st st.
Proof.
  split; [done|]. split; [done|]. split.
  - intros name data Hl. exists "". by rewrite string_app_nil_r.
  - exists []. by rewrite app_nil_r.
Qed.

Lemma keeps_trans (st1 st2 st3 : fetcher) : keeps st1 st2 → keeps st2 st3 → keeps st1 st3.
Proof.
  intros (Hd1 & Hh1 & Hf1 & t1 & Ht1) (Hd2 & Hh2 & Hf2 & t2 & Ht2).
  split; [congruence|]. split; [set_solver|]. split.
  - intros name data Hl.
    destruct (Hf1 name data Hl) as (m1 & Hl1 & He1).
    destruct (Hf2 name _ Hl1) as (m2 & Hl2 & He2).
    exists (m1 +:+ m2). rewrite <- string_app_assoc. split; [done|].
    intros Hne. by rewrite He1, He2.
  - exists (t1 ++ t2). by rewrite Ht2, Ht1, app_assoc.
Qed.

Lemma keeps_say (l : line) (st : fetcher) : keeps st (say l st).
Proof.
  split; [done|]. split; [done|]. split.
  - intros name data Hl. exists "". by rewrite string_app_nil_r.
  - by exists [Print l].
Qed.

Lemma keeps_sleep (seconds : Z) (st : fetcher) : keeps st (sleep seconds st).
Proof.
  split; [done|]. split; [done|]. split.
  - intros name data Hl. exists "". by rewrite string_app_nil_r.
  - by exists [Sleep seconds].
Qed.

(** Writing a file under a name that is not in the directory. *)
Lemma keeps_write_file (name data : string) (st : fetcher) :
  files st !! name = None → keeps st (write_file name data st).
Proof.
  intros Hnew. split; [done|]. split; [done|]. split.
  - intros name' data' Hl. exists "". rewrite string_app_nil_r. split; [|done].
    simpl. rewrite lookup_insert_ne; [done|]. congruence.
  - exists []. by rewrite app_nil_r.
Qed.

(** Text put at the end of the list file. *)
Lemma keeps_append_text (text : string) (st : fetcher) : keeps st (append_text text st).
Proof.
  split; [done|]. split; [done|]. split.
  - intros name data Hl. simpl.
    destruct (decide (name = HASH_FILE)) as [->|Hne].
    + exists text. rewrite lookup_insert_eq, Hl. done.
    + exists "". rewrite string_app_nil_r, lookup_insert_ne by done. done.
  - exists []. by rewrite app_nil_r.
Qed.

Lemma keeps_save_hash (w : World) (st : fetcher) (file_hash : string) :
  keeps st (_save_hash w st file_hash).
Proof.
  unfold _save_hash. destruct (open_append w).
  - split; [done|]. split; [simpl; set_solver|]. split.
    + intros name data Hl. simpl.
      destruct (decide (name = HASH_FILE)) as [->|Hne].
      * exists (file_hash +:+ NL). rewrite lookup_insert_eq, Hl. done.
      * exists "". rewrite string_app_nil_r, lookup_insert_ne by done. done.
    + exists []. by rewrite app_nil_r.
  - destruct (append_failure w) as [|written]; [apply keeps_say|].
    eapply keeps_trans; [apply keeps_append_text|apply keeps_say].
Qed.

Lemma path_exists_false (st : fetcher) (filepath : string) :
  path_exists st filepath = false →
  filepath ≠ "" ∧ filepath ≠ ".." ∧ files st !! filepath = None.
Proof.
  unfold path_exists. intros Hex.
  apply orb_false_iff in Hex as [Hex Hdom]. apply orb_false_iff in Hex as [He Hp].
  apply String.eqb_neq in He, Hp. apply bool_decide_eq_false in Hdom.
  split; [done|]. split; [done|]. by apply not_elem_of_dom.
Qed.

(** What the conflict loop returns does not exist. *)
Lemma handle_filename_conflicts_fresh (st : fetcher) (filepath r : string) :
  handle_filename_conflicts st filepath = Some r → path_exists st r = false.
Proof. unfold handle_filename_conflicts. by intros [? _]%conflict_loop_sound. Qed.

Section FetchCases.
Context `{Runtime}.

Lemma failed_with_say2 (l1 l2 : line) (st : fetcher) :
  failed_with [l1; l2] st (say l2 (say l1 st)).
Proof.
  split; [done|]. split; [done|].
  cbn [trace say fmap list_fmap]. by rewrite <- app_assoc.
Qed.

Lemma failed_with_say4 (l1 l2 l3 l4 : line) (st : fetcher) :
  failed_with [l1; l2; l3; l4] st (say l4 (say l3 (say l2 (say l1 st)))).
Proof.
  split; [done|]. split; [done|].
  cbn [trace say fmap list_fmap]. by rewrite <- !app_assoc.
Qed.

(** The ways a fetch ends: [False] with the directory as it was, or with
    one new file that holds a part of the image; a duplicate and [True];
    the image saved under a path that did not exist and [True]. *)
Lemma fetch_image_cases (w : World) (st : fetcher) (url : string) :
  (∃ st' lines, fetch_image w st url = (st', false)
     ∧ failed_with lines st st'
     ∧ (files st' = files st ∨ cut_short w st url st')
     ∧ ¬ fetch_succeeds w st url)
  ∨ (∃ message response body,
       probe w url = Return (true, message)
       ∧ download w url = Return (response, body)
       ∧ _get_file_hash body ∈ downloaded_hashes st
       ∧ fetch_image w st url = (say DuplicateDetected (downloading url message st), true))
  ∨ (∃ message response body filename filepath,
       probe w url = Return (true, message)
       ∧ download w url = Return (response, body)
       ∧ (_get_file_hash body ∉ downloaded_hashes st)
       ∧ (_generate_filename w url (default "image/jpeg" (content_type_header response))
          = Return filename)
       ∧ handle_filename_conflicts st (joinpath filename) = Some filepath
       ∧ open_wb w filepath = true
       ∧ fetch_image w st url
         = (saved w url message body filename filepath st, true)).
Proof.
  unfold fetch_image, fetch_try.
  destruct (probe w url) as [[[] message]|e] eqn:Hprobe.
  2:{ left. eexists _, _. split; [reflexivity|]. split; [apply failed_with_say2|].
      split; [by left|]. intros (m & r & b & Hp & _). congruence. }
  2:{ left. eexists _, _. split; [reflexivity|]. split; [apply failed_with_say2|].
      split; [by left|]. intros (m & r & b & Hp & _). congruence. }
  destruct (download w url) as [[response body]|e] eqn:Hdown.
  2:{ left. eexists _, _. split; [reflexivity|]. split; [apply failed_with_say4|].
      split; [by left|]. intros (m & r & b & _ & Hd & _). congruence. }
  cbn [downloaded_hashes say].
  destruct (decide (_get_file_hash body ∈ downloaded_hashes st)) as [Hdup|Hnew].
  { right; left. exists message, response, body.
    rewrite bool_decide_eq_true_2 by done. done. }
  rewrite bool_decide_eq_false_2 by done.
  destruct (_generate_filename w url _) as [filename|e] eqn:Hname.
  2:{ left. eexists _, _. split; [reflexivity|]. split; [apply failed_with_say4|].
      split; [by left|].
      intros (m & r & b & _ & Hd & Hcase). rewrite Hdown in Hd.
      injection Hd as <- <-. destruct Hcase as [?|(f & p & Hf & _)]; [done|].
      congruence. }
  rewrite !handle_filename_conflicts_say.
  destruct (handle_filename_conflicts st (joinpath filename)) as [filepath|] eqn:Hpath.
  2:{ destruct (handle_filename_conflicts_total st (joinpath filename)) as [? Hsome].
      rewrite Hsome in Hpath. done. }
  destruct (open_wb w filepath) eqn:Hwrite.
  { right; right. by exists message, response, body, filename, filepath. }
  assert (¬ fetch_succeeds w st url) as Hnot.
  { intros (m & r & b & _ & Hd & Hcase). rewrite Hdown in Hd.
    injection Hd as <- <-. destruct Hcase as [?|(f & p & Hf & Hp & Hw)]; [done|].
    rewrite Hname in Hf. injection Hf as <-. rewrite Hpath in Hp.
    injection Hp as <-. congruence. }
  left. destruct (wb_failure w filepath) as [|written] eqn:Hhow.
  - eexists _, _. split; [reflexivity|]. split; [apply failed_with_say4|].
    split; [by left|done].
  - eexists _, [Connecting url; Accepted message; Downloading; FileSystemFailed].
    split; [reflexivity|]. split.
    { split; [done|]. split; [done|].
      cbn [trace say write_file fmap list_fmap]. by rewrite <- !app_assoc. }
    split; [|done]. right.
    exists message, response, body, filename, filepath, written.
    repeat (split; [done|]). split; [|done].
    by apply handle_filename_conflicts_fresh, path_exists_false in Hpath as (_ & _ & ?).
Qed.

Lemma keeps_downloading (url message : string) (st : fetcher) :
  keeps st (downloading url message st).
Proof.
  unfold downloading.
  eapply keeps_trans; [apply keeps_say|].
  eapply keeps_trans; apply keeps_say.
Qed.

Lemma keeps_saved (w : World) (url message body filename filepath : string)
  (st : fetcher) :
  path_exists st filepath = false →
  keeps st (saved w url message body filename filepath st).
Proof.
  intros (_ & _ & Hnew)%path_exists_false. unfold saved.
  eapply keeps_trans; [apply keeps_downloading|].
  eapply keeps_trans; [apply keeps_write_file; exact Hnew|].
  eapply keeps_trans; [apply keeps_save_hash|].
  do 4 (eapply keeps_trans; [|apply keeps_say]). apply keeps_refl.
Qed.

End FetchCases.

(* ===================================================================== *)
(** ** Outcomes of [fetch_image] *)
(* ===================================================================== *)

Section FetchOutcomes.
Context `{Runtime}.

Lemma fetch_image_true (w : World) (st : fetcher) (url : string) :
  (fetch_image w st url).2 = true → fetch_succeeds w st url.
Proof.
  destruct (fetch_image_cases w st url)
    as [(st' & lines & Hf & _) | [(m & r & b & Hp & Hd & Hdup & _)
       | (m & r & b & f & p & Hp & Hd & _ & Hn & Hc & Hw & _)]].
  - rewrite Hf. done.
  - intros _. exists m, r, b. auto.
  - intros _. exists m, r, b. split; [done|]. split; [done|]. right. by exists f, p.
Qed.

Lemma fetch_succeeds_true (w : World) (st : fetcher) (url : string) :
  fetch_succeeds w st url → (fetch_image w st url).2 = true.
Proof.
  intros Hs.
  destruct (fetch_image_cases w st url)
    as [(st' & lines & _ & _ & _ & Hnot) | [(m & r & b & _ & _ & _ & ->)
       | (m & r & b & f & p & _ & _ & _ & _ & _ & _ & ->)]]; done.
Qed.

(** What a failed write leaves is a beginning of the data. *)
Lemma written_part_prefix (written : nat) (data : string) :
  ∃ rest, data = written_part written data +:+ rest.
Proof.
  unfold written_part. revert written.
  induction data as [|c data IH]; intros [|n]; simpl; try by eexists.
  destruct (IH n) as [rest Hrest]. exists rest.
  change (String c (substring 0 n data) +:+ rest)
    with (String c (substring 0 n data +:+ rest)). by rewrite <- Hrest.
Qed.

(** A fetch keeps what was there, whatever its outcome. *)
Lemma keeps_fetch_image (w : World) (st : fetcher) (url : string) :
  keeps st (fetch_image w st url).1.
Proof.
  destruct (fetch_image_cases w st url)
    as [(st' & lines & -> & (Hh & Hd & Ht) & Hfiles & _) | [(m & r & b & _ & _ & _ & ->)
       | (m & r & b & f & p & _ & _ & _ & _ & Hp & _ & ->)]]; cbn [fst].
  - split; [done|]. split; [by rewrite Hh|]. split; [|by eexists].
    intros name data Hl. exists "". rewrite string_app_nil_r. split; [|done].
    destruct Hfiles as [->|(? & ? & ? & ? & p & n & _ & _ & _ & _ & _ & Hnew & _ & _ & ->)];
      [done|].
    rewrite lookup_insert_ne; [done|]. congruence.
  - eapply keeps_trans; [apply keeps_downloading|apply keeps_say].
  - apply keeps_saved. by eapply handle_filename_conflicts_fresh.
Qed.

(** The characters of a generated filename pass [safe_char]. *)
Lemma generate_filename_chars (w : World) (url content_type filename : string) (c : ascii) :
  _generate_filename w url content_type = Return filename →
  Py.contains c filename = true → safe_char c = true.
Proof.
  unfold _generate_filename. destruct (urlparse_path url) as [path|e]; [|done].
  cbn [bind]. intros [= <-]. apply join_if_kept.
Qed.

Lemma contains_join_if (keep : ascii → bool) (s : string) (c : ascii) :
  Py.contains c s = true → keep c = true → Py.contains c (Py.join_if keep s) = true.
Proof.
  intros Hc Hk. induction s as [|d s IH]; [done|]. simpl in Hc |- *.
  destruct (Ascii.eqb_spec c d) as [<-|Hne].
  - rewrite Hk. simpl. by rewrite Ascii.eqb_refl.
  - simpl in Hc. destruct (keep d); simpl; [|by apply IH].
    rewrite IH by done. apply orb_true_r.
Qed.

Lemma generate_filename_nonempty (w : World) (url content_type filename : string) :
  _generate_filename w url content_type = Return filename → filename ≠ "".
Proof.
  unfold _generate_filename. destruct (urlparse_path url) as [path|e]; [|done].
  cbn [bind]. intros [= <-].
  destruct (String.eqb _ "" || negb _) eqn:Hsyn.
  - rewrite prefix_and_timestamp_kept. done.
  - apply orb_false_iff in Hsyn as [_ Hdot%negb_false_iff].
    intros Hempty.
    pose proof (contains_join_if safe_char _ "." Hdot eq_refl) as Hc.
    by rewrite Hempty in Hc.
Qed.






End FetchOutcomes.

(** X1: a fetch that returns [False] leaves the hash set as it was and
    touches no file that was there; the directory is unchanged unless the
    file for the image was opened and its write then failed, in which case
    there is exactly one new entry, at a path that did not exist, holding
    the beginning of the downloaded bytes that reached the disk. *)
Theorem failed_fetch_leaves_at_most_a_part `{Runtime} (w : World) (st : fetcher)
  (url : string) :
  (fetch_image w st url).2 = false →
  downloaded_hashes (fetch_image w st url).1 = downloaded_hashes st
  ∧ (files (fetch_image w st url).1 = files st
     ∨ ∃ response body filepath written rest,
         download w url = Return (response, body)
         ∧ files st !! filepath = None
         ∧ open_wb w filepath = false
         ∧ wb_failure w filepath = WriteFailed written
         ∧ body = written_part written body +:+ rest
         ∧ files (fetch_image w st url).1
           = <[filepath := written_part written body]> (files st))
  ∧ ((∀ filepath, wb_failure w filepath = OpenFailed) →
     files (fetch_image w st url).1 = files st).
Proof.
  destruct (fetch_image_cases w st url)
    as [(st' & lines & -> & (Hh & _) & Hfiles & _) | [(m & r & b & _ & _ & _ & ->)
       | (m & r & b & f & p & _ & _ & _ & _ & _ & _ & ->)]]; [|done..].
  intros _. cbn [fst]. split; [done|].
  destruct Hfiles as [Hsame|(m & r & b & f & p & n & _ & Hd & _ & _ & _ & Hnew & Hw & Hhow & Hf)].
  - split; [by left|done].
  - split.
    + right. destruct (written_part_prefix n b) as [rest Hrest].
      by exists r, b, p, n, rest.
    + intros Hopen. rewrite Hopen in Hhow. done.
Qed.

Lemma failed_fetch_leaves_at_most_a_part_witness :
  let r := @fetch_image Demo.runtime (Demo.world_disk_full 3)
             (Demo.fetcher_with ["dog.png"]) "https://example.com/pics/cat.png" in
  r.2 = false
  ∧ downloaded_hashes r.1 = downloaded_hashes (Demo.fetcher_with ["dog.png"])
  ∧ files r.1 = <["cat.png" := "PNG"]> (files (Demo.fetcher_with ["dog.png"])).
Proof.
  split; [reflexivity|]. split.
  - exact (proj1 (@failed_fetch_leaves_at_most_a_part Demo.runtime
                    (Demo.world_disk_full 3) (Demo.fetcher_with ["dog.png"])
                    "https://example.com/pics/cat.png" eq_refl)).
  - vm_compute. reflexivity.
Defined.

(** X2: [fetch_image] returns [True] exactly when the probe is accepted,
    the download returns a body, and either the hash of the body is known
    or a filename is resolved and the file under the path of the conflict
    loop can be written. *)
Theorem fetch_returns_true_iff `{Runtime} (w : World) (st : fetcher) (url : string) :
  (fetch_image w st url).2 = true
  ↔ ∃ message response body,
      probe w url = Return (true, message)
      ∧ download w url = Return (response, body)
      ∧ (_get_file_hash body ∈ downloaded_hashes st
         ∨ ∃ filename filepath,
             _generate_filename w url
               (default "image/jpeg" (content_type_header response))
             = Return filename
             ∧ handle_filename_conflicts st (joinpath filename) = Some filepath
             ∧ open_wb w filepath = true).
Proof. split; [apply fetch_image_true|apply fetch_succeeds_true]. Qed.

(** X3: whatever its outcome, a fetch keeps the directory name, every
    known hash and every file with its content; only the hash list may get
    longer at its end; the trace only gets longer. *)
Theorem fetch_image_keeps `{Runtime} (w : World) (st : fetcher) (url : string) :
  keeps st (fetch_image w st url).1.
Proof. apply keeps_fetch_image. Qed.



(** X5: after a fetch that returned [True] while the hash list could be
    written, the hash of the downloaded content is in the set, and every
    later fetch that downloads the same content is a duplicate: it returns
    [True] and leaves the directory and the set as they are. *)
Theorem fetched_content_is_remembered `{Runtime} (w : World) (st st' : fetcher)
  (url body : string) (response : Response) :
  fetch_image w st url = (st', true) →
  download w url = Return (response, body) →
  open_append w = true →
  _get_file_hash body ∈ downloaded_hashes st'
  ∧ ∀ (w2 : World) (url2 message2 : string) (response2 : Response),
      probe w2 url2 = Return (true, message2) →
      download w2 url2 = Return (response2, body) →
      (fetch_image w2 st' url2).2 = true
      ∧ files (fetch_image w2 st' url2).1 = files st'
      ∧ downloaded_hashes (fetch_image w2 st' url2).1 = downloaded_hashes st'.
Proof.
  intros Hfetch Hdown Happend.
  assert (_get_file_hash body ∈ downloaded_hashes st') as Hin.
  { destruct (fetch_image_cases w st url)
      as [(st1 & lines & Hf & _) | [(m & r & b & _ & Hd & Hdup & Hs)
         | (m & r & b & f & p & _ & Hd & _ & _ & _ & _ & Hs)]].
    - congruence.
    - rewrite Hdown in Hd. injection Hd as <- <-.
      rewrite Hfetch in Hs. by injection Hs as ->.
    - rewrite Hdown in Hd. injection Hd as <- <-.
      rewrite Hfetch in Hs. injection Hs as ->.
      unfold saved, _save_hash. rewrite Happend.
      cbn [downloaded_hashes say append_hash]. set_solver. }
  split; [exact Hin|].
  intros w2 url2 message2 response2 Hp2 Hd2.
  destruct (fetch_image_cases w2 st' url2)
    as [(st1 & lines & _ & _ & _ & Hnot) | [(m & r & b & _ & _ & _ & ->)
       | (m & r & b & f & p & _ & Hd & Hnew & _)]].
  - exfalso. apply Hnot. exists message2, response2, body. auto.
  - done.
  - rewrite Hd2 in Hd. injection Hd as <- <-. done.
Qed.

Lemma fetched_content_is_remembered_witness :
  let r := @fetch_image Demo.runtime (Demo.world true) Demo.empty_fetcher
             "https://example.com/pics/cat.png" in
  @_get_file_hash Demo.runtime "PNG-BYTES" ∈ downloaded_hashes r.1
  ∧ files (@fetch_image Demo.runtime (Demo.world false) r.1
             "https://example.com/other/name.png").1 = files r.1.
Proof.
  destruct (@fetched_content_is_remembered Demo.runtime (Demo.world true)
              Demo.empty_fetcher
              (@fetch_image Demo.runtime (Demo.world true) Demo.empty_fetcher
                 "https://example.com/pics/cat.png").1
              "https://example.com/pics/cat.png" "PNG-BYTES"
              (Demo.response (Some "image/png") (Some "9"))
              eq_refl eq_refl eq_refl) as [Hin Hlater].
  split; [exact Hin|].
  exact (proj1 (proj2 (Hlater (Demo.world false) "https://example.com/other/name.png"
                         "Headers validated successfully"
                         (Demo.response (Some "image/png") (Some "9"))
                         eq_refl eq_refl))).
Defined.

(* ===================================================================== *)
(** ** More on header validation and filenames *)
(* ===================================================================== *)

Lemma lower_char_idempotent (c : ascii) :
  Py.lower_char (Py.lower_char c) = Py.lower_char c.
Proof. by destruct c as [[] [] [] [] [] [] [] []]. Qed.

Lemma lower_idempotent (s : string) : Py.lower (Py.lower s) = Py.lower s.
Proof.
  induction s as [|c s IH]; [done|]. simpl. by rewrite lower_char_idempotent, IH.
Qed.

(** X6: with an image content type and a content length that [int]
    converts to a number below 2^1043 in magnitude, validation fails
    exactly when the number is above 50 * 1,048,576, with the message that
    shows the size in megabytes to one decimal. *)
Theorem content_length_ceiling `{Runtime} (r : Response) (text : string) (n : Z) :
  Py.startswith (Py.lower (default "" (content_type_header r))) "image/" = true →
  content_length_header r = Some text →
  Py.int int_max_str_digits text = Some n →
  Z.abs n < 2 ^ 1043 →
  (52428800 < n →
   _validate_image_headers r
   = Return (false, "Image too large (" +:+ Py.format_1f (Py.round53 n)
                      +:+ "MB). Limit: 50MB"))
  ∧ (n <= 52428800 →
     _validate_image_headers r = Return (true, "Headers validated successfully")).
Proof.
  intros Hct Hcl Hint Hn.
  rewrite (validate_size_in_range r text n Hct Hcl Hint Hn).
  change (50 * Py.MIB) with 52428800.
  split; intros Hcmp.
  - by apply Z.ltb_lt in Hcmp as ->.
  - by apply Z.ltb_ge in Hcmp as ->.
Qed.

Lemma content_length_ceiling_witness :
  @_validate_image_headers Demo.runtime
    (Demo.response (Some "image/png") (Some " 52_428_801 "))
  = Return (false, "Image too large (50.0MB). Limit: 50MB")
  ∧ @_validate_image_headers Demo.runtime
      (Demo.response (Some "image/png") (Some "-7"))
    = Return (true, "Headers validated successfully").
Proof.
  split.
  - exact (proj1 (@content_length_ceiling Demo.runtime
                    (Demo.response (Some "image/png") (Some " 52_428_801 "))
                    " 52_428_801 " 52428801 eq_refl eq_refl eq_refl eq_refl) eq_refl).
  - refine (proj2 (@content_length_ceiling Demo.runtime
                    (Demo.response (Some "image/png") (Some "-7"))
                    "-7" (-7) eq_refl eq_refl eq_refl eq_refl) _).
    vm_compute. discriminate.
Defined.

(** X7: validation accepts only what it should: when it returns success,
    the content type (lowercased) starts with [image/], the message is the
    fixed one, and a content length that [int] converts is at most
    50 * 1,048,576. *)
Theorem accepted_headers_are_small_images `{Runtime} (r : Response) (message : string) :
  _validate_image_headers r = Return (true, message) →
  Py.startswith (Py.lower (default "" (content_type_header r))) "image/" = true
  ∧ message = "Headers validated successfully"
  ∧ ∀ text n, content_length_header r = Some text →
              Py.int int_max_str_digits text = Some n → n <= 52428800.
Proof.
  intros Hok.
  destruct (Py.startswith (Py.lower (default "" (content_type_header r))) "image/")
    eqn:Hct.
  2:{ rewrite (validate_not_image r Hct) in Hok. done. }
  split; [done|]. split.
  - unfold _validate_image_headers in Hok. rewrite Hct in Hok. cbn [negb] in Hok.
    destruct (content_length_header r) as [[|c text]|]; [congruence| |congruence].
    destruct (Py.int _ _) as [n|]; [|congruence].
    destruct (Py.truediv_mib n) as [m|e]; [|done]. cbn [bind] in Hok.
    destruct (Py.gt_50 m); congruence.
  - intros text n Hcl Hint.
    rewrite (validate_size r text n Hct Hcl Hint) in Hok.
    destruct (Py.truediv_mib n) as [m|e]; [|done]. cbn [bind] in Hok.
    destruct (Z.ltb_spec (50 * Py.MIB) n) as [|Hle]; [done|].
    exact Hle.
Qed.

Lemma accepted_headers_are_small_images_witness :
  let r := Demo.response (Some "Image/PNG") (Some "1024") in
  @_validate_image_headers Demo.runtime r = Return (true, "Headers validated successfully")
  ∧ Py.startswith (Py.lower (default "" (content_type_header r))) "image/" = true.
Proof.
  split; [reflexivity|].
  exact (proj1 (@accepted_headers_are_small_images Demo.runtime
                  (Demo.response (Some "Image/PNG") (Some "1024"))
                  "Headers validated successfully" eq_refl)).
Defined.

(** X8: the letter case of the declared content type does not matter:
    validating a response gives what validating it with the content type
    lowercased gives. *)
Theorem validation_ignores_case `{Runtime} (r : Response) :
  _validate_image_headers r
  = _validate_image_headers
      {| status_code := status_code r;
         content_type_header := Py.lower <$> content_type_header r;
         content_length_header := content_length_header r;
         content := content r |}.
Proof.
  unfold _validate_image_headers. cbn [content_type_header content_length_header].
  assert (Py.lower (default "" (Py.lower <$> content_type_header r))
          = Py.lower (default "" (content_type_header r))) as ->; [|done].
  destruct (content_type_header r); simpl; [apply lower_idempotent|done].
Qed.

(** X9: when the decoded final path segment of the URL has a dot, the
    filename is that segment sanitized, whatever the content type and the
    clock are, and it still has a dot. *)
Theorem url_filename_is_kept `{Runtime} (url path : string) :
  urlparse_path url = Return path →
  Py.contains "." (Py.basename (unquote path)) = true →
  Py.contains "." (Py.join_if safe_char (Py.basename (unquote path))) = true
  ∧ ∀ (w : World) (content_type : string),
      _generate_filename w url content_type
      = Return (Py.join_if safe_char (Py.basename (unquote path))).
Proof.
  intros Hpath Hdot. split; [by apply contains_join_if|].
  intros w content_type. unfold _generate_filename. rewrite Hpath. cbn [bind].
  rewrite Hdot. cbn [negb]. rewrite orb_false_r.
  destruct (String.eqb_spec (Py.basename (unquote path)) "") as [Heq|]; [|done].
  by rewrite Heq in Hdot.
Qed.

Lemma url_filename_is_kept_witness :
  @_generate_filename Demo.runtime (Demo.world true)
    "https://example.com/a/b/photo (2).final.jpg" "text/plain"
  = Return "photo2.final.jpg".
Proof.
  exact (proj2 (@url_filename_is_kept Demo.runtime
                  "https://example.com/a/b/photo (2).final.jpg"
                  "/a/b/photo (2).final.jpg" eq_refl eq_refl)
           (Demo.world true) "text/plain").
Defined.

(** X10: a filename returned by the resolver is never empty and has no
    slash. *)
Theorem generated_filename_is_a_name `{Runtime} (w : World)
  (url content_type filename : string) :
  _generate_filename w url content_type = Return filename →
  filename ≠ "" ∧ Py.contains "/" filename = false.
Proof.
  intros Hgen. split; [by eapply generate_filename_nonempty|].
  destruct (Py.contains "/" filename) eqn:Hc; [|done].
  by apply (generate_filename_chars _ _ _ _ _ Hgen) in Hc.
Qed.

Lemma generated_filename_is_a_name_witness :
  @_generate_filename Demo.runtime (Demo.world true)
    "https://example.com/a/..%2F..%2Fetc/" "image/png"
  = Return "ubuntu_image_1700000000.png"
  ∧ "ubuntu_image_1700000000.png" ≠ ""
  ∧ Py.contains "/" "ubuntu_image_1700000000.png" = false.
Proof.
  split; [reflexivity|].
  exact (@generated_filename_is_a_name Demo.runtime (Demo.world true)
           "https://example.com/a/..%2F..%2Fetc/" "image/png"
           "ubuntu_image_1700000000.png" eq_refl).
Defined.

(** X11: the conflict loop always ends, with a path that does not exist;
    a path that does not exist is returned as it is; and running the loop
    with more rounds than the bound used gives the same path. *)
Theorem conflict_loop_finds_free_path (st : fetcher) (filepath : string) :
  ∃ r, handle_filename_conflicts st filepath = Some r
    ∧ path_exists st r = false
    ∧ (path_exists st filepath = false → r = filepath)
    ∧ ∀ extra : nat,
        conflict_loop (S (size (files st)) + extra) st
          (Py.stem (path_name st filepath)) (Py.suffix (path_name st filepath))
          1 filepath
        = Some r.
Proof.
  destruct (handle_filename_conflicts_total st filepath) as [r Hr].
  exists r. split; [done|]. split; [by eapply handle_filename_conflicts_fresh|].
  split.
  - intros Hfree. rewrite handle_filename_conflicts_free in Hr by done. congruence.
  - intros extra. by apply conflict_loop_more_fuel.
Qed.

(* ===================================================================== *)
(** ** More on the batch runner *)
(* ===================================================================== *)

Lemma rstrip_idempotent (sp : ascii → bool) (s : string) :
  Py.rstrip_by sp (Py.rstrip_by sp s) = Py.rstrip_by sp s.
Proof.
  induction s as [|c s IH]; [done|]. simpl.
  destruct (Py.rstrip_by sp s) as [|d s'] eqn:Hs.
  - destruct (sp c) eqn:Hc; [done|]. simpl. by rewrite Hc.
  - simpl. simpl in IH. by rewrite IH.
Qed.

(** A text stripped on the right keeps its first character. *)
Lemma lstrip_rstrip (sp : ascii → bool) (s : string) :
  Py.lstrip_by sp s = s → Py.lstrip_by sp (Py.rstrip_by sp s) = Py.rstrip_by sp s.
Proof.
  destruct s as [|c s]; [done|]. simpl.
  destruct (sp c) eqn:Hc.
  - intros Heq. exfalso. apply (f_equal String.length) in Heq. simpl in Heq.
    assert (∀ t, String.length (Py.lstrip_by sp t) <= String.length t)%nat as Hlen.
    { clear. induction t as [|d t IH]; simpl; [lia|]. destruct (sp d); simpl; lia. }
    specialize (Hlen s). lia.
  - intros _. destruct (Py.rstrip_by sp s); simpl; by rewrite Hc.
Qed.

Lemma lstrip_idempotent (sp : ascii → bool) (s : string) :
  Py.lstrip_by sp (Py.lstrip_by sp s) = Py.lstrip_by sp s.
Proof.
  induction s as [|c s IH]; [done|]. simpl.
  destruct (sp c) eqn:Hc; [done|]. simpl. by rewrite Hc.
Qed.

Lemma strip_idempotent (s : string) : Py.strip (Py.strip s) = Py.strip s.
Proof.
  unfold Py.strip, Py.strip_by.
  rewrite lstrip_rstrip by apply lstrip_idempotent.
  apply rstrip_idempotent.
Qed.

Lemma sleeps_app (t1 t2 : list effect) : sleeps (t1 ++ t2) = (sleeps t1 + sleeps t2)%nat.
Proof. induction t1 as [|[] t1 IH]; simpl; lia. Qed.

Lemma sleeps_prints (lines : list line) : sleeps (Print <$> lines) = 0%nat.
Proof. by induction lines. Qed.

Section MoreBatch.
Context `{Runtime}.

(** A fetch only prints. *)
Lemma fetch_image_prints (w : World) (st : fetcher) (url : string) :
  ∃ lines, trace (fetch_image w st url).1 = trace st ++ (Print <$> lines).
Proof.
  destruct (fetch_image_cases w st url)
    as [(st' & lines & -> & (_ & _ & Ht) & _) | [(m & r & b & _ & _ & _ & ->)
       | (m & r & b & f & p & _ & _ & _ & _ & _ & _ & ->)]]; cbn [fst].
  - by exists lines.
  - exists [Connecting url; Accepted m; Downloading; DuplicateDetected].
    unfold downloading. cbn [trace say fmap list_fmap]. by rewrite <- !app_assoc.
  - unfold saved, downloading, _save_hash.
    destruct (open_append w); [|destruct (append_failure w)].
    + exists [Connecting url; Accepted m; Downloading; Fetched f; SavedTo p;
              Size (String.length b); Strengthened].
      cbn [trace say append_hash write_file fmap list_fmap]. by rewrite <- !app_assoc.
    + exists [Connecting url; Accepted m; Downloading; HashNotSaved; Fetched f;
              SavedTo p; Size (String.length b); Strengthened].
      cbn [trace say write_file fmap list_fmap]. by rewrite <- !app_assoc.
    + exists [Connecting url; Accepted m; Downloading; HashNotSaved; Fetched f;
              SavedTo p; Size (String.length b); Strengthened].
      cbn [trace say append_text write_file fmap list_fmap]. by rewrite <- !app_assoc.
Qed.

(** A fetch never pauses. *)
Lemma fetch_image_sleeps (w : World) (st : fetcher) (url : string) :
  sleeps (trace (fetch_image w st url).1) = sleeps (trace st).
Proof.
  destruct (fetch_image_prints w st url) as [lines ->].
  rewrite sleeps_app, sleeps_prints. lia.
Qed.

(** The trace of the loop from the [i]-th URL on, round by round. *)
Lemma batch_loop_trace (worlds : nat → World) (count i : nat) (urls : list string)
  (st : fetcher) (res : results) :
  ∃ printed : list (list line),
    length printed = length urls
    ∧ trace (batch_loop worlds count i urls st res).1
      = trace st ++ concat (imap (λ j lines, round_trace count (i + j) lines) printed).
Proof.
  revert i st res. induction urls as [|url rest IH]; intros i st res.
  { exists []. split; [done|]. simpl. by rewrite app_nil_r. }
  cbn [batch_loop]. unfold batch_round.
  destruct (fetch_image_prints (worlds i) (say (Processing i count) st) (Py.strip url))
    as [lines Hlines].
  destruct (fetch_image (worlds i) (say (Processing i count) st) (Py.strip url))
    as [st1 success].
  cbn [fst] in Hlines.
  destruct (IH (S i) (pause i count st1) (tally success res)) as (printed & Hlen & Ht).
  exists (lines :: printed). split; [simpl; by rewrite Hlen|].
  rewrite Ht, imap_cons. cbn [concat]. rewrite Nat.add_0_r.
  assert (trace (pause i count st1)
          = trace st ++ round_trace count i lines) as ->.
  { unfold pause, round_trace.
    destruct (i <? count)%nat; cbn [trace sleep say]; rewrite Hlines;
      cbn [trace say]; rewrite <- ?app_assoc; simpl; by rewrite ?app_nil_r. }
  rewrite <- app_assoc. do 3 f_equal.
  apply imap_ext. intros j lines' _. simpl. f_equal. lia.
Qed.

Lemma pause_sleeps (i count : nat) (st : fetcher) :
  sleeps (trace (pause i count st))
  = (sleeps (trace st) + (if (i <? count)%nat then 1 else 0))%nat.
Proof.
  unfold pause. destruct (i <? count)%nat; [|lia].
  cbn [trace sleep say]. rewrite !sleeps_app. simpl. lia.
Qed.

Lemma keeps_pause (i count : nat) (st : fetcher) : keeps st (pause i count st).
Proof.
  unfold pause. destruct (i <? count)%nat; [|apply keeps_refl].
  eapply keeps_trans; [apply keeps_say|apply keeps_sleep].
Qed.

(** The loop from the [i]-th of [count] URLs on pauses once for each URL
    but the last. *)
Lemma batch_loop_sleeps (worlds : nat → World) (count i : nat) (urls : list string)
  (st : fetcher) (res : results) :
  (i + length urls = S count)%nat →
  sleeps (trace (batch_loop worlds count i urls st res).1)
  = (sleeps (trace st) + (length urls - 1))%nat.
Proof.
  revert i st res. induction urls as [|url rest IH]; intros i st res Hi.
  { simpl. lia. }
  cbn [batch_loop]. unfold batch_round.
  destruct (fetch_image (worlds i) (say (Processing i count) st) (Py.strip url))
    as [st1 success] eqn:Hfetch.
  rewrite IH by (simpl in Hi; lia).
  rewrite pause_sleeps.
  pose proof (fetch_image_sleeps (worlds i) (say (Processing i count) st) (Py.strip url))
    as Hs.
  rewrite Hfetch in Hs. cbn [fst trace say] in Hs. rewrite sleeps_app in Hs.
  simpl in Hs, Hi |- *.
  destruct (Nat.ltb_spec i count); destruct rest; simpl in *; lia.
Qed.

Lemma batch_loop_keeps (worlds : nat → World) (count i : nat) (urls : list string)
  (st : fetcher) (res : results) :
  keeps st (batch_loop worlds count i urls st res).1.
Proof.
  revert i st res. induction urls as [|url rest IH]; intros i st res.
  { apply keeps_refl. }
  cbn [batch_loop]. unfold batch_round.
  pose proof (keeps_fetch_image (worlds i) (say (Processing i count) st) (Py.strip url))
    as Hk.
  destruct (fetch_image (worlds i) (say (Processing i count) st) (Py.strip url))
    as [st1 success].
  cbn [fst] in Hk.
  eapply keeps_trans; [apply keeps_say|].
  eapply keeps_trans; [exact Hk|].
  eapply keeps_trans; [apply keeps_pause|]. apply IH.
Qed.

Lemma batch_loop_strip (worlds : nat → World) (count i : nat) (urls : list string)
  (st : fetcher) (res : results) :
  batch_loop worlds count i (Py.strip <$> urls) st res
  = batch_loop worlds count i urls st res.
Proof.
  revert i st res. induction urls as [|url rest IH]; intros i st res; [done|].
  cbn [fmap list_fmap batch_loop]. unfold batch_round.
  rewrite strip_idempotent.
  destruct (fetch_image _ _ _) as [st1 success]. apply IH.
Qed.

Lemma keeps_batch (worlds : nat → World) (st : fetcher) (urls : list string) :
  keeps st (fetch_multiple_images worlds st urls).1.
Proof.
  unfold fetch_multiple_images.
  eapply keeps_trans; [apply keeps_say|apply batch_loop_keeps].
Qed.

End MoreBatch.

(** X12: what a batch adds to the trace is the start line and then, for
    each URL in order, the progress line, the lines its fetch printed
    (a fetch never pauses), and, exactly when the URL is not the last, the
    notice and a pause of two seconds.  So the runner pauses two seconds
    after every URL but the last and nowhere else: [n - 1] pauses for [n]
    URLs, none for an empty batch. *)
Theorem batch_pauses_between_urls `{Runtime} (worlds : nat → World) (st : fetcher)
  (urls : list string) :
  (∃ printed : list (list line),
     length printed = length urls
     ∧ trace (fetch_multiple_images worlds st urls).1
       = trace st ++ Print (SessionStarted (length urls))
         :: concat (imap (λ j lines,
                            Print (Processing (S j) (length urls)) :: (Print <$> lines)
                            ++ (if (S j <? length urls)%nat
                                then [Print Pausing; Sleep 2] else []))
                      printed))
  ∧ sleeps (trace (fetch_multiple_images worlds st urls).1)
    = (sleeps (trace st) + (length urls - 1))%nat.
Proof.
  split.
  - unfold fetch_multiple_images.
    destruct (batch_loop_trace worlds (length urls) 1 urls
                (say (SessionStarted (length urls)) st)
                {| successful := 0; failed := 0; total := length urls |})
      as (printed & Hlen & Ht).
    exists printed. split; [done|]. rewrite Ht. cbn [trace say].
    by rewrite <- app_assoc.
  - unfold fetch_multiple_images. rewrite batch_loop_sleeps by lia.
    cbn [trace say]. rewrite sleeps_app. simpl. lia.
Qed.

(** A batch of two: the only pause is between the two rounds. *)
Example batch_of_two_trace :
  trace (@fetch_multiple_images Demo.runtime (λ _, Demo.world true) Demo.empty_fetcher
           ["https://example.com/a.txt"; "https://example.com/pics/cat.png"]).1
  = [Print (SessionStarted 2);
     Print (Processing 1 2); Print (Connecting "https://example.com/a.txt");
     Print (Accepted "Headers validated successfully"); Print Downloading;
     Print (Fetched "a.txt"); Print (SavedTo "a.txt"); Print (Size 9);
     Print Strengthened; Print Pausing; Sleep 2;
     Print (Processing 2 2); Print (Connecting "https://example.com/pics/cat.png");
     Print (Accepted "Headers validated successfully"); Print Downloading;
     Print DuplicateDetected].
Proof. vm_compute. reflexivity. Qed.

(** X13: white space around the URLs of a batch makes no difference: the
    batch of the trimmed URLs ends in the same state with the same
    summary. *)
Theorem batch_ignores_surrounding_space `{Runtime} (worlds : nat → World)
  (st : fetcher) (urls : list string) :
  fetch_multiple_images worlds st (Py.strip <$> urls)
  = fetch_multiple_images worlds st urls.
Proof.
  unfold fetch_multiple_images. rewrite length_fmap. apply batch_loop_strip.
Qed.

(** X14: a batch keeps every file that was in the directory with its
    content (the hash list may only get longer at its end) and every hash
    that was known. *)
Theorem batch_keeps `{Runtime} (worlds : nat → World) (st : fetcher)
  (urls : list string) :
  keeps st (fetch_multiple_images worlds st urls).1.
Proof. apply keeps_batch. Qed.

(* ===================================================================== *)
(** ** The hash list across restarts *)
(* ===================================================================== *)

Lemma prepend_app (c : ascii) (l1 l2 : list string) :
  l1 ≠ [] → prepend c (l1 ++ l2) = prepend c l1 ++ l2.
Proof. by destruct l1. Qed.

Lemma prepend_nonempty (c : ascii) (l : list string) : prepend c l ≠ [].
Proof. by destruct l. Qed.

Lemma readlines_nonempty (text : string) :
  text ≠ "" → readlines_from false text ≠ [].
Proof.
  destruct text as [|c r]; [done|]. intros _. simpl.
  destruct (Ascii.eqb c "010"); [done|].
  destruct (Ascii.eqb c "013"); [done|]. apply prepend_nonempty.
Qed.

Lemma app_NL_nonempty (a : string) : a +:+ NL ≠ "".
Proof. by destruct a. Qed.

(** Reading past a line feed starts afresh. *)
Lemma readlines_app (after_cr : bool) (a b : string) :
  readlines_from after_cr ((a +:+ NL) +:+ b)
  = readlines_from after_cr (a +:+ NL) ++ readlines_from false b.
Proof.
  revert after_cr. induction a as [|c a IH]; intros after_cr.
  { change (("" +:+ NL) +:+ b) with (String "010" b). simpl. by destruct after_cr. }
  change ((String c a +:+ NL) +:+ b) with (String c ((a +:+ NL) +:+ b)).
  change (String c a +:+ NL) with (String c (a +:+ NL)).
  simpl. destruct (Ascii.eqb c "010").
  { rewrite IH. by destruct after_cr. }
  destruct (Ascii.eqb c "013"); [by rewrite IH|].
  rewrite IH. apply prepend_app, readlines_nonempty, app_NL_nonempty.
Qed.

Lemma nonspace_not_newline (c : ascii) :
  nonspace c = true → Ascii.eqb c "010" = false ∧ Ascii.eqb c "013" = false.
Proof. by destruct c as [[] [] [] [] [] [] [] []]. Qed.

(** A text without white space followed by a line feed is one line. *)
Lemma readlines_one (h : string) :
  all_chars nonspace h = true → readlines_from false (h +:+ NL) = [h +:+ NL].
Proof.
  induction h as [|c h IH]; [done|]. simpl.
  intros [Hc Hh]%andb_true_iff.
  change (String c h +:+ NL) with (String c (h +:+ NL)). simpl.
  destruct (nonspace_not_newline c Hc) as [-> ->]. by rewrite IH.
Qed.

Lemma rstrip_line (h : string) :
  all_chars nonspace h = true → Py.rstrip_by Py.isspace (h +:+ NL) = h.
Proof.
  induction h as [|c h IH]; [done|]. simpl.
  intros [Hc Hh]%andb_true_iff.
  change (String c h +:+ NL) with (String c (h +:+ NL)). simpl.
  rewrite IH by done. unfold nonspace in Hc. apply negb_true_iff in Hc.
  rewrite Hc. by destruct h.
Qed.

Lemma strip_line (h : string) :
  all_chars nonspace h = true → Py.strip (h +:+ NL) = h.
Proof.
  intros Hh. unfold Py.strip, Py.strip_by.
  destruct h as [|c h]; [done|].
  change (String c h +:+ NL) with (String c (h +:+ NL)).
  pose proof Hh as Hh'. simpl in Hh'. apply andb_true_iff in Hh' as [Hc _].
  unfold nonspace in Hc. apply negb_true_iff in Hc.
  simpl Py.lstrip_by. rewrite Hc.
  change (String c (h +:+ NL)) with (String c h +:+ NL). by apply rstrip_line.
Qed.

Lemma hexdigit_nonspace (h : string) :
  all_chars hexdigit h = true → all_chars nonspace h = true.
Proof.
  induction h as [|c h IH]; [done|]. simpl.
  intros [Hc Hh]%andb_true_iff. rewrite IH by done.
  revert Hc. by destruct c as [[] [] [] [] [] [] [] []].
Qed.

(** One more complete line is one more hash. *)
Lemma hash_lines_append (text h : string) :
  complete_lines text →
  all_chars nonspace h = true →
  hash_lines (text +:+ h +:+ NL) = {[h]} ∪ hash_lines text
  ∧ complete_lines (text +:+ h +:+ NL).
Proof.
  intros Hcomplete Hh. split.
  - unfold hash_lines, readlines.
    destruct Hcomplete as [->|[t ->]].
    + change ("" +:+ h +:+ NL) with (h +:+ NL).
      rewrite readlines_one by done. simpl. rewrite strip_line by done. set_solver.
    + rewrite readlines_app, (readlines_one h) by done.
      rewrite fmap_app, list_to_set_app_L. simpl. rewrite strip_line by done.
      set_solver.
  - right. exists (text +:+ h). by rewrite string_app_assoc.
Qed.


(** X15: appending a line with a hash to a list of complete lines adds
    exactly that hash to what [_load_existing_hashes] reads, provided the
    hash has no white space (a hexadecimal digest has none). *)
Theorem appended_hash_is_read_back (text h : string) :
  complete_lines text →
  all_chars nonspace h = true →
  hash_lines (text +:+ h +:+ NL) = {[h]} ∪ hash_lines text
  ∧ complete_lines (text +:+ h +:+ NL).
Proof. apply hash_lines_append. Qed.

Lemma appended_hash_is_read_back_witness :
  hash_lines ("0cc175b9" +:+ NL +:+ "92eb5ffe" +:+ NL)
  = {[ "92eb5ffe" ]} ∪ hash_lines ("0cc175b9" +:+ NL).
Proof.
  exact (proj1 (appended_hash_is_read_back ("0cc175b9" +:+ NL) "92eb5ffe"
                  (or_intror (ex_intro _ "0cc175b9" eq_refl)) eq_refl)).
Defined.



(** X17: a restart restores the hash set: when the set and the list of a
    fetcher are in step and the list can be read back as it was written,
    the object made on its directory has the same files and the same hash
    set, and reports the number of hashes when the list exists. *)
Theorem restart_restores_hashes (st : fetcher) (mkdir_ok : bool)
  (read_text : string → outcome string) (name : string) :
  in_step st →
  (∀ data, files st !! HASH_FILE = Some data → read_text data = Return data) →
  ∃ st0,
    __init__ mkdir_ok read_text name (Directory (files st))
    = Return (st0, match files st !! HASH_FILE with
                   | Some _ => [Loaded (size (downloaded_hashes st))]
                   | None => []
                   end)
    ∧ files st0 = files st
    ∧ downloaded_hashes st0 = downloaded_hashes st
    ∧ download_dir st0 = name ∧ trace st0 = [].
Proof.
  intros [Hset _] Hread. unfold __init__, _load_existing_hashes.
  cbn [mkdir bind files].
  destruct (files st !! HASH_FILE) as [data|] eqn:Hfile.
  - rewrite (Hread data eq_refl). change (default "" (Some data)) with data in Hset.
    rewrite Hset. eexists. split; [reflexivity|]. done.
  - change (default "" None) with "" in Hset. eexists. split; [reflexivity|].
    cbn [files downloaded_hashes download_dir trace]. rewrite <- Hset. done.
Qed.

Lemma restart_restores_hashes_witness :
  let st := (@fetch_image Demo.runtime (Demo.world true) Demo.empty_fetcher
               "https://example.com/pics/cat.png").1 in
  ∃ st0, __init__ false Return "Fetched_Images" (Directory (files st))
         = Return (st0, [Loaded 1])
    ∧ downloaded_hashes st0 = downloaded_hashes st.
Proof.
  destruct (restart_restores_hashes
              (@fetch_image Demo.runtime (Demo.world true) Demo.empty_fetcher
                 "https://example.com/pics/cat.png").1
              false Return "Fetched_Images") as (st0 & Hinit & _ & Hh & _).
  - split; [vm_compute; reflexivity|]. right.
    exists "digest-of-PNG-BYTES". vm_compute. reflexivity.
  - intros data _. reflexivity.
  - exists st0. split; [exact Hinit|exact Hh].
Defined.

(** How start-up fails or degrades: a file in the place of the
    directory, or a directory that cannot be made, raises; a hash list that
    cannot be read is reported and leaves the set empty, with the files
    untouched. *)
Lemma startup_failures (read_text : string → outcome string) (name : string) :
  __init__ true read_text name NotADirectory = Raise OSError
  ∧ __init__ false read_text name Absent = Raise OSError
  ∧ ∀ (mkdir_ok : bool) (entries : gmap string string) (data : string) (e : exn),
      entries !! HASH_FILE = Some data →
      read_text data = Raise e →
      __init__ mkdir_ok read_text name (Directory entries)
      = Return ({| download_dir := name; files := entries;
                   downloaded_hashes := ∅; trace := [] |}, [HashesNotLoaded e]).
Proof.
  split; [done|]. split; [done|].
  intros mkdir_ok entries data e Hfile Hread.
  unfold __init__, _load_existing_hashes. cbn [mkdir bind files].
  by rewrite Hfile, Hread.
Qed.

(* ===================================================================== *)
(** ** Recording a hash *)
(* ===================================================================== *)


(** Such a list arises when an image named like the list file is the
    first thing saved: the fetch succeeds, the set has the hash, and the
    list file reads back as one line that is not the hash. *)
Example image_named_like_the_hash_list :
  let r := @fetch_image Demo.runtime (Demo.world true) Demo.empty_fetcher
             "https://example.com/.image_hashes.txt" in
  r.2 = true
  ∧ files r.1 !! HASH_FILE = Some ("PNG-BYTES" +:+ "digest-of-PNG-BYTES" +:+ NL)
  ∧ elements (downloaded_hashes r.1) = ["digest-of-PNG-BYTES"]
  ∧ elements (hash_lines (default "" (files r.1 !! HASH_FILE)))
    = ["PNG-BYTESdigest-of-PNG-BYTES"].
Proof. repeat split; vm_compute; reflexivity. Qed.

Section Recording.
Context `{Runtime}.


End Recording.



(* ===================================================================== *)
(** ** The menu *)
(* ===================================================================== *)

Lemma read_urls_shorter (inputs urls urls' rest : list string) :
  read_urls inputs urls = Return (urls', rest) → (length rest < length inputs)%nat.
Proof.
  revert urls. induction inputs as [|l inputs IH]; intros urls; simpl; [done|].
  destruct (String.eqb (Py.strip l) "").
  - intros [= _ <-]. lia.
  - intros Hr%IH. lia.
Qed.

(** X18: the lines typed for choice 2 are taken up to the first blank
    one, trimmed and in order, and the lines after it are left for the
    menu; when no blank line comes, reading ends with the end-of-input
    error. *)
Theorem read_urls_until_blank (urls rest acc : list string) (blank : string) :
  Forall (λ u, Py.strip u ≠ "") urls →
  (Py.strip blank = "" →
   read_urls (urls ++ blank :: rest) acc = Return (acc ++ (Py.strip <$> urls), rest))
  ∧ read_urls urls acc = Raise OtherError.
Proof.
  intros Hurls. revert acc.
  induction Hurls as [|u urls Hu _ IH]; intros acc.
  - split; [|done]. intros Hblank. simpl. rewrite Hblank. by rewrite app_nil_r.
  - apply String.eqb_neq in Hu. destruct (IH (acc ++ [Py.strip u])) as [IH1 IH2].
    split.
    + intros Hblank. simpl. rewrite Hu, IH1 by done. by rewrite <- app_assoc.
    + simpl. by rewrite Hu.
Qed.

Lemma read_urls_until_blank_witness :
  read_urls [" https://a.example/x.png "; "https://b.example/y.gif"; "   "; "3"] []
  = Return (["https://a.example/x.png"; "https://b.example/y.gif"], ["3"]).
Proof.
  refine (proj1 (read_urls_until_blank
                   [" https://a.example/x.png "; "https://b.example/y.gif"]
                   ["3"] [] "   " _) eq_refl).
  repeat constructor; vm_compute; discriminate.
Defined.

Section Menu.
Context `{Runtime}.

Lemma main_loop_enough_fuel (fuel : nat) (worlds : nat → World)
  (inputs : list string) (sh : shell) :
  (length inputs < fuel)%nat → is_Some (main_loop fuel worlds inputs sh).
Proof.
  revert inputs sh. induction fuel as [|fuel IH]; intros inputs sh Hlen; [lia|].
  cbn [main_loop]. destruct inputs as [|l inputs]; [done|]. simpl in Hlen.
  destruct (String.eqb (Py.strip l) "1").
  { destruct inputs as [|u inputs]; [done|]. simpl in Hlen.
    destruct (negb _); apply IH; lia. }
  destruct (String.eqb (Py.strip l) "2").
  { destruct (read_urls inputs []) as [[urls rest]|e] eqn:Hr; [|done].
    apply read_urls_shorter in Hr.
    destruct urls; apply IH; lia. }
  destruct (String.eqb (Py.strip l) "3"); [done|]. apply IH. lia.
Qed.

Lemma main_loop_more_fuel (fuel extra : nat) (worlds : nat → World)
  (inputs : list string) (sh : shell) (r : shell * outcome unit) :
  main_loop fuel worlds inputs sh = Some r →
  main_loop (fuel + extra) worlds inputs sh = Some r.
Proof.
  revert inputs sh. induction fuel as [|fuel IH]; intros inputs sh; [done|].
  cbn [main_loop Nat.add]. destruct inputs as [|l inputs]; [done|].
  destruct (String.eqb (Py.strip l) "1").
  { destruct inputs as [|u inputs]; [done|]. destruct (negb _); apply IH. }
  destruct (String.eqb (Py.strip l) "2").
  { destruct (read_urls inputs []) as [[urls rest]|e]; [|done].
    destruct urls; apply IH. }
  destruct (String.eqb (Py.strip l) "3"); [done|]. apply IH.
Qed.

Lemma main_loop_keeps (fuel : nat) (worlds : nat → World)
  (inputs : list string) (sh sh' : shell) (r : outcome unit) :
  main_loop fuel worlds inputs sh = Some (sh', r) →
  keeps (fetcher_of sh) (fetcher_of sh').
Proof.
  revert inputs sh. induction fuel as [|fuel IH]; intros inputs sh; [done|].
  cbn [main_loop]. destruct inputs as [|l inputs].
  { intros [= <- _]. apply keeps_refl. }
  destruct (String.eqb (Py.strip l) "1").
  { destruct inputs as [|u inputs]; [intros [= <- _]; apply keeps_refl|].
    destruct (negb _).
    - intros Hk%IH. cbn [fetcher_of fetched shell_say] in Hk.
      eapply keeps_trans; [|exact Hk]. apply keeps_fetch_image.
    - intros Hk%IH. exact Hk. }
  destruct (String.eqb (Py.strip l) "2").
  { destruct (read_urls inputs []) as [[urls rest]|e];
      [|intros [= <- _]; apply keeps_refl].
    destruct urls as [|u urls].
    - intros Hk%IH. exact Hk.
    - intros Hk%IH. cbn [fetcher_of fetched shell_say] in Hk.
      eapply keeps_trans; [|exact Hk]. apply keeps_batch. }
  destruct (String.eqb (Py.strip l) "3").
  { intros [= <- _]. apply keeps_refl. }
  intros Hk%IH. exact Hk.
Qed.

Lemma main_loop_goodbye (fuel : nat) (worlds : nat → World)
  (inputs : list string) (sh sh' : shell) (r : outcome unit) :
  main_loop fuel worlds inputs sh = Some (sh', r) →
  (r = Return tt ↔ last (console sh') = Some Goodbye)
  ∧ (r = Return tt ∨ r = Raise OtherError).
Proof.
  revert inputs sh. induction fuel as [|fuel IH]; intros inputs sh; [done|].
  cbn [main_loop]. destruct inputs as [|l inputs].
  { intros [= <- <-]. cbn [console shell_say]. rewrite last_snoc.
    split; [split; intros; congruence|by right]. }
  destruct (String.eqb (Py.strip l) "1").
  { destruct inputs as [|u inputs].
    - intros [= <- <-]. cbn [console shell_say]. rewrite last_snoc.
      split; [split; intros; congruence|by right].
    - destruct (negb _); apply IH. }
  destruct (String.eqb (Py.strip l) "2").
  { destruct (read_urls inputs []) as [[urls rest]|e] eqn:Hr.
    - destruct urls; apply IH.
    - intros [= <- <-]. cbn [console shell_say]. rewrite last_snoc.
      assert (e = OtherError) as ->.
      { clear -Hr. revert Hr. generalize (@nil string).
        induction inputs as [|i inputs IHi]; intros acc; simpl; [congruence|].
        destruct (String.eqb _ _); [done|]. apply IHi. }
      split; [split; intros; congruence|by right]. }
  destruct (String.eqb (Py.strip l) "3").
  { intros [= <- <-]. cbn [console shell_say]. rewrite last_snoc.
    split; [done|by left]. }
  apply IH.
Qed.

End Menu.

(** X19: [main] always ends: for every state of the disk and every list
    of typed lines it returns or raises, and more rounds than the bound
    used change nothing. *)
Theorem main_terminates `{Runtime} (mkdir_ok : bool)
  (read_text : string → outcome string) (disk : dir_state) (worlds : nat → World)
  (inputs : list string) :
  (∃ s, main mkdir_ok read_text disk worlds inputs = Some s)
  ∧ ∀ (sh : shell) (extra : nat),
      main_loop (S (length inputs) + extra) worlds inputs sh
      = main_loop (S (length inputs)) worlds inputs sh.
Proof.
  split.
  - unfold main. destruct (__init__ _ _ _ _) as [[st printed]|e]; [|by eexists].
    destruct (main_loop_enough_fuel (S (length inputs)) worlds inputs
                {| fetcher_of := st; console := [Banner]; fetches := 0 |})
      as [[sh r] ->]; [lia|by eexists].
  - intros sh extra.
    destruct (main_loop_enough_fuel (S (length inputs)) worlds inputs sh)
      as [r Hr]; [lia|].
    rewrite Hr. by apply main_loop_more_fuel.
Qed.

(** X20: a session never removes or overwrites a file that was in the
    directory when it started: at the end each is there with its content,
    the hash list at most longer at its end. *)
Theorem session_keeps_files `{Runtime} (mkdir_ok : bool)
  (read_text : string → outcome string) (entries : gmap string string)
  (worlds : nat → World) (inputs : list string) (sh : shell)
  (printed : list startup_line) (r : outcome unit) :
  main mkdir_ok read_text (Directory entries) worlds inputs = Some (Ended sh printed r) →
  ∀ name data, entries !! name = Some data →
    ∃ more, files (fetcher_of sh) !! name = Some (data +:+ more)
            ∧ (name ≠ HASH_FILE → more = "").
Proof.
  unfold main.
  destruct (__init__ _ _ _ _) as [[st printed']|e] eqn:Hinit; [|done].
  destruct (main_loop _ _ _ _) as [[sh' r']|] eqn:Hloop; [|done].
  intros [= <- <- <-].
  apply main_loop_keeps in Hloop as (_ & _ & Hfiles & _).
  cbn [fetcher_of] in Hfiles.
  assert (files st = entries) as Hst.
  { unfold __init__, _load_existing_hashes in Hinit. cbn [mkdir bind files] in Hinit.
    destruct (entries !! HASH_FILE); [destruct (read_text _)|];
      injection Hinit as <- _; done. }
  intros name data Hl. apply Hfiles. by rewrite Hst.
Qed.

Lemma session_keeps_files_witness :
  ∃ more, files (fetcher_of
                   (match @main Demo.runtime true Return
                            (Directory {[ "cat.png" := "OLD" ]})
                            (λ _, Demo.world true)
                            ["1"; "https://example.com/pics/cat.png"; "3"] with
                    | Some (Ended sh _ _) => sh
                    | _ => {| fetcher_of := Demo.empty_fetcher; console := [];
                              fetches := 0 |}
                    end)) !! "cat.png" = Some ("OLD" +:+ more)
          ∧ ("cat.png" ≠ HASH_FILE → more = "").
Proof.
  destruct (@main Demo.runtime true Return (Directory {[ "cat.png" := "OLD" ]})
              (λ _, Demo.world true) ["1"; "https://example.com/pics/cat.png"; "3"])
    as [[e|sh printed r]|] eqn:Hmain.
  - vm_compute in Hmain. discriminate Hmain.
  - exact (@session_keeps_files Demo.runtime true Return {[ "cat.png" := "OLD" ]}
             (λ _, Demo.world true) ["1"; "https://example.com/pics/cat.png"; "3"]
             sh printed r Hmain "cat.png" "OLD" eq_refl).
  - vm_compute in Hmain. discriminate Hmain.
Defined.

(** X21: a session returns exactly when the farewell is the last line the
    menu printed, which is when choice 3 was taken; otherwise it ends with
    the end-of-input error of [input]. *)
Theorem session_ends_with_goodbye `{Runtime} (mkdir_ok : bool)
  (read_text : string → outcome string) (disk : dir_state) (worlds : nat → World)
  (inputs : list string) (sh : shell) (printed : list startup_line) (r : outcome unit) :
  main mkdir_ok read_text disk worlds inputs = Some (Ended sh printed r) →
  (r = Return tt ↔ last (console sh) = Some Goodbye)
  ∧ (r = Return tt ∨ r = Raise OtherError).
Proof.
  unfold main.
  destruct (__init__ _ _ _ _) as [[st printed']|e]; [|done].
  destruct (main_loop _ _ _ _) as [[sh' r']|] eqn:Hloop; [|done].
  intros [= <- <- <-]. by eapply main_loop_goodbye.
Qed.

Lemma session_ends_with_goodbye_witness :
  ∃ sh printed,
    @main Demo.runtime true Return Absent (λ _, Demo.world true) ["9"; " 3 "; "1"]
    = Some (Ended sh printed (Return tt))
    ∧ last (console sh) = Some Goodbye.
Proof.
  destruct (@main Demo.runtime true Return Absent (λ _, Demo.world true)
              ["9"; " 3 "; "1"]) as [[e|sh printed r]|] eqn:Hmain.
  - vm_compute in Hmain. discriminate Hmain.
  - assert (r = Return tt) as ->.
    { vm_compute in Hmain. injection Hmain as _ _ <-. reflexivity. }
    exists sh, printed. split; [reflexivity|].
    exact (proj1 (proj1 (@session_ends_with_goodbye Demo.runtime true Return Absent
                           (λ _, Demo.world true) ["9"; " 3 "; "1"] sh printed
                           (Return tt) Hmain)) eq_refl).
  - vm_compute in Hmain. discriminate Hmain.
Defined.

